(** * NVMeofGw: map reconciliation and beacon reporting

    A shallow embedding of [src/nvmeof/NVMeofGw.cc]:
    [get_gw_state], [NVMeofGw::send_beacon], [NVMeofGw::tick] and
    [NVMeofGw::handle_nvmeof_gw_map].

    - [std::map] is a [gmap]; iterating one visits the keys in ascending
      order, which is [map_to_list] sorted by key.
    - [std::vector] is a [list]; [operator[]] is the partial lookup [!!],
      and reading past the end has no defined result.
    - The gRPC clients are opaque: every call is answered by the next
      boolean of a script of replies, and what the agent did is recorded
      as a list of [event]s. *)

From Stdlib Require Import ZArith Lia.
From stdpp Require Import base option list gmap strings sorting.

Local Open Scope nat_scope.

(** ** Types of [NVMeofGwMap.h] and of the gateway protocol *)

Abbreviation GW_ID_T := string (only parsing).
Abbreviation NQN_ID_T := string (only parsing).
Abbreviation GROUP_KEY := (string * string)%type (only parsing).

(** Modelled from the spec: the declaration of [ANA_GRP_ID_T] is not in this
    file.  Group indices count the entries of an [ana_state] sequence and
    exported group ids are [index + 1]; both are natural numbers here. *)
Abbreviation ANA_GRP_ID_T := nat (only parsing).

(** Modelled from the spec: the enumeration
    [GW_EXPORTED_STATES_PER_AGROUP_E] is declared outside this file.  A value
    of a C++ enumeration is a value of its underlying integer type, so a raw
    state is an integer; which integer is [GW_EXPORTED_OPTIMIZED_STATE] is a
    parameter of the development (see [Section Gateway]). *)
Abbreviation GW_EXPORTED_STATES_PER_AGROUP_E := Z (only parsing).

Inductive GW_AVAILABILITY_E : Type :=
  | GW_CREATED
  | GW_AVAILABLE
  | GW_UNAVAILABLE.

(** Modelled from the spec: [NqnState] holds the ordered sequence of raw
    per-group states of one subsystem. *)
Record NqnState : Type := {
  ana_state : list GW_EXPORTED_STATES_PER_AGROUP_E
}.

(** Modelled from the spec: [GW_STATE_T] is [{groupId, availability,
    subsystems}]; this file reads [group_id] and [subsystems]. *)
Record GW_STATE_T : Type := {
  group_id : ANA_GRP_ID_T;
  availability : GW_AVAILABILITY_E;
  subsystems : gmap NQN_ID_T NqnState
}.

Abbreviation GWMAP := (gmap GW_ID_T GW_STATE_T) (only parsing).
Abbreviation GW_MAP := (gmap GROUP_KEY GWMAP) (only parsing).

(** [set_ana_state] request: [ana_info] > [nqn_ana_states] > [ana_group_state]. *)
Inductive ana_state_e : Type :=
  | OPTIMIZED
  | INACCESSIBLE.

Record ana_group_state : Type := {
  grp_id : nat;
  state : ana_state_e
}.

Record nqn_ana_states : Type := {
  nqn : NQN_ID_T;
  states : list ana_group_state
}.

(** The repeated field [states] of [ana_info]. *)
Record ana_info : Type := {
  ana_info_states : list nqn_ana_states
}.

(** [get_subsystems] reply: [subsystems_info] > [subsystem]. *)
Record namespace_info : Type := {
  anagrpid : nat;
  nonce : string
}.

Record listen_address : Type := {
  traddr : string;
  trsvcid : string
}.

Record subsystem : Type := {
  subsystem_nqn : string;
  namespaces : list namespace_info;
  listen_addresses : list listen_address
}.

Record subsystems_info : Type := {
  subsystems_info_subsystems : list subsystem
}.

(** Beacon payload ([MNVMeofGwBeacon.h]). *)
Record BeaconNamespace : Type := {
  bns_anagrpid : nat;
  bns_nonce : string
}.

Record BeaconListener : Type := {
  address_family : string;
  address : string;
  svcid : string
}.

Record BeaconSubsystem : Type := {
  bsub_nqn : string;
  bsub_namespaces : list BeaconNamespace;
  bsub_listeners : list BeaconListener
}.

Abbreviation BeaconSubsystems := (list BeaconSubsystem) (only parsing).

Record MNVMeofGwBeacon : Type := {
  gw_id : GW_ID_T;
  gw_pool : string;
  gw_group : string;
  subs : BeaconSubsystems;
  gw_availability : GW_AVAILABILITY_E
}.

(** The part of the agent's state that these functions read and write:
    its identity and the last map it applied. *)
Record NVMeofGw : Type := {
  name : GW_ID_T;
  pool : string;
  group : string;
  map : GW_MAP
}.

(** ** Remote calls, events and the reply script *)

Inductive rpc : Type :=
  | set_group_id (id : ANA_GRP_ID_T)
  | set_ana_state (ai : ana_info).

Inductive event : Type :=
  | call (c : rpc) (ok : bool)
  | usleep (us : nat)
  | get_subsystems (gw_subsystems : subsystems_info) (ok : bool)
  | send_mon_message (m : MNVMeofGwBeacon)
  | add_event_after (seconds : nat).

(** How a run of the handler ends on a finite script of replies. *)
Inductive result (A : Type) : Type :=
  | Returned (a : A) (rest : list bool)
  | Blocked (c : rpc)
  | Undefined.
Arguments Returned {A} a rest.
Arguments Blocked {A} c.
Arguments Undefined {A}.

Definition M (A : Type) : Type := list bool → list event * result A.

Definition ret {A : Type} (a : A) : M A := λ replies, ([], Returned a replies).

Definition bind {A B : Type} (m : M A) (f : A → M B) : M B := λ replies,
  match m replies with
  | (tr, Returned a rest) => let '(tr', r) := f a rest in (tr ++ tr', r)
  | (tr, Blocked c) => (tr, Blocked c)
  | (tr, Undefined) => (tr, Undefined)
  end.

Notation "x <- m ;; k" := (bind m (λ x, k))
  (at level 100, m at next level, right associativity).
Notation "m ;;; k" := (bind m (λ _, k))
  (at level 100, right associativity).

(** An out-of-bounds read ends the run with no defined result. *)
Definition defined {A : Type} (o : option A) : M A := λ replies,
  match o with
  | Some a => ([], Returned a replies)
  | None => ([], Undefined)
  end.

(** [bool ok = false; while (!ok) { ok = c(); if (!ok) usleep(1000); }] *)
Fixpoint retry (c : rpc) (replies : list bool) : list event * result unit :=
  match replies with
  | [] => ([], Blocked c)
  | true :: rest => ([call c true], Returned tt rest)
  | false :: rest =>
      let '(tr, r) := retry c rest in (call c false :: usleep 1000 :: tr, r)
  end.

(** ** [get_gw_state] (lines 180-194)

    The boolean result and the out-parameter are one [option]. *)
Definition get_gw_state (m : GW_MAP) (group_key : GROUP_KEY) (gw_id : GW_ID_T)
    : option GW_STATE_T :=
  match m !! group_key with
  | None => None
  | Some gw_group =>
      match gw_group !! gw_id with
      | None => None
      | Some gw_state => Some gw_state
      end
  end.

(** The [subsystems] of the local [GW_STATE_T] that [get_gw_state] filled, or
    of the default-constructed one (an empty map) when it returned false. *)
Definition subsystems_of (st : option GW_STATE_T) : gmap NQN_ID_T NqnState :=
  match st with
  | Some s => subsystems s
  | None => ∅
  end.

(** Iteration order of [std::map<NQN_ID_T, NqnState>]. *)
Definition nqn_le (a b : NQN_ID_T * NqnState) : Prop := String.le a.1 b.1.

Global Instance nqn_le_dec a b : Decision (nqn_le a b).
Proof. unfold nqn_le. apply _. Defined.

Definition in_order (m : gmap NQN_ID_T NqnState) : list (NQN_ID_T * NqnState) :=
  merge_sort nqn_le (map_to_list m).

(** ** Messages and start-up *)

(** A message as [ms_dispatch2] sees it: its type tag and, for a map message,
    the map that [get_map] gives after the cast. *)
Record Message : Type := {
  get_type : Z;
  get_map : GW_MAP
}.

(** The members of [NVMeofGw] that [init] checks besides the identity. *)
Record NVMeofGwOptions : Type := {
  gateway_address : string;
  monitor_address : string;
  server_key : string;
  server_cert : string;
  client_cert : string
}.

(** The calls of [init], in the order of the source; a call whose result
    [init] tests carries that result. *)
Inductive init_call : Type :=
  | init_async_signal_handler
  | register_async_signal_handler
  | finisher_start
  | add_dispatcher_tail_this
  | add_dispatcher_head_objecter
  | add_dispatcher_tail_client
  | client_messenger_start
  | poolctx_start (n : nat)
  | monc_build_initial_monmap (r : Z)
  | client_messenger_shutdown
  | client_messenger_wait
  | monc_sub_want (what : string)
  | monc_set_want_keys
  | monc_set_messenger
  | monc_register_config_callback
  | monc_register_config_notify_callback
  | monc_init (r : Z)
  | monc_shutdown
  | monc_authenticate (r : Z)
  | monc_set_passthrough_monmap
  | client_messenger_set_myname
  | objecter_set_client_incarnation (n : nat)
  | objecter_init
  | objecter_start
  | client_init
  | timer_init
  | run (e : event).

(** [init] either stops at a failed [ceph_assert] or returns a code after
    the calls it made. *)
Inductive init_result : Type :=
  | Aborted
  | Exited (r : Z) (calls : list init_call).

(** ** Sample inputs

    The agent [g1] of group [(pool-A, group-1)]; in the samples the raw value
    [0] is the optimized one. *)

Definition sample_state (l : list GW_EXPORTED_STATES_PER_AGROUP_E) : GW_STATE_T :=
  {| group_id := 3; availability := GW_CREATED;
     subsystems := {[ "nqn1" := {| ana_state := l |} ]} |}.

Definition sample_map (st : GW_STATE_T) : GW_MAP :=
  {[ ("pool-A", "group-1") := {[ "g1" := st ]} ]}.

(** The same group with a second gateway [g2], and a second group. *)
Definition sample_map_with_peers (st : GW_STATE_T) : GW_MAP :=
  {[ ("pool-A", "group-1") := {[ "g1" := st; "g2" := sample_state [5%Z] ]};
     ("pool-B", "group-1") := {[ "g1" := sample_state [7%Z; 7%Z] ]} ]}.

Definition sample_gw (m : GW_MAP) : NVMeofGw :=
  {| name := "g1"; pool := "pool-A"; group := "group-1"; map := m |}.

Definition sample_subsystems_info : subsystems_info :=
  {| subsystems_info_subsystems :=
       [ {| subsystem_nqn := "nqn1";
            namespaces := [ {| anagrpid := 1; nonce := "n" |} ];
            listen_addresses := [ {| traddr := "10.0.0.1"; trsvcid := "4420" |} ] |} ] |}.

Definition sample_options : NVMeofGwOptions :=
  {| gateway_address := "10.0.0.1:5500"; monitor_address := "10.0.0.2:5499";
     server_key := ""; server_cert := ""; client_cert := "" |}.

(** Two subsystems, [nqn1] with the sequence [l1] and [nqn0] with [l0]. *)
Definition sample_state2 (l1 l0 : list GW_EXPORTED_STATES_PER_AGROUP_E)
    : GW_STATE_T :=
  {| group_id := 4; availability := GW_AVAILABLE;
     subsystems := {[ "nqn1" := {| ana_state := l1 |};
                      "nqn0" := {| ana_state := l0 |} ]} |}.

Section Gateway.

(** The raw value that is exported as optimized. *)
Variable GW_EXPORTED_OPTIMIZED_STATE : GW_EXPORTED_STATES_PER_AGROUP_E.

(** ** [send_beacon] (lines 196-239) and [tick] (lines 241-252) *)

Definition beacon_namespace (ns : namespace_info) : BeaconNamespace :=
  {| bns_anagrpid := anagrpid ns; bns_nonce := nonce ns |}.

Definition beacon_listener (ls : listen_address) : BeaconListener :=
  {| address_family := "fake"; address := traddr ls; svcid := trsvcid ls |}.

Definition beacon_subsystem (sub : subsystem) : BeaconSubsystem :=
  {| bsub_nqn := subsystem_nqn sub;
     bsub_namespaces := beacon_namespace <$> namespaces sub;
     bsub_listeners := beacon_listener <$> listen_addresses sub |}.

(** The message that [send_beacon] builds from the reply
    [(gw_subsystems, ok)] of [get_subsystems]. *)
Definition beacon (gw : NVMeofGw) (gw_subsystems : subsystems_info) (ok : bool)
    : MNVMeofGwBeacon :=
  let subs :=
    if ok then beacon_subsystem <$> subsystems_info_subsystems gw_subsystems
    else [] in
  let group_key := (pool gw, group gw) in
  let gw_availability :=
    match get_gw_state (map gw) group_key (name gw) with
    | Some _ => if ok then GW_AVAILABLE else GW_UNAVAILABLE
    | None => GW_CREATED
    end in
  {| gw_id := name gw; gw_pool := pool gw; gw_group := group gw;
     subs := subs; gw_availability := gw_availability |}.

Definition send_beacon (gw : NVMeofGw) (gw_subsystems : subsystems_info)
    (ok : bool) : list event :=
  [get_subsystems gw_subsystems ok;
   send_mon_message (beacon gw gw_subsystems ok)].

Definition tick (mgr_tick_period : nat) (gw : NVMeofGw)
    (gw_subsystems : subsystems_info) (ok : bool) : list event :=
  send_beacon gw gw_subsystems ok ++ [add_event_after mgr_tick_period].

(** ** [handle_nvmeof_gw_map] (lines 285-354) *)

(** Line 333: the state set on a group record. *)
Definition exported_state (new_group_state : GW_EXPORTED_STATES_PER_AGROUP_E)
    : ana_state_e :=
  if decide (new_group_state = GW_EXPORTED_OPTIMIZED_STATE)
  then OPTIMIZED else INACCESSIBLE.

(** Lines 327-328: the test that skips a group; [&&] reads the old sequence
    only when the old state and the old subsystem were found.  [None] is
    the read [ana_state[ana_grp_index]] past the end of the old sequence. *)
Definition no_state_change (got_old_gw_state : bool)
    (old_nqn_state : option NqnState) (ana_grp_index : nat)
    (new_group_state : GW_EXPORTED_STATES_PER_AGROUP_E) : option bool :=
  if got_old_gw_state then
    match old_nqn_state with
    | Some old_sub =>
        match ana_state old_sub !! ana_grp_index with
        | Some old_group_state =>
            Some (bool_decide (new_group_state = old_group_state))
        | None => None
        end
    | None => Some false
    end
  else Some false.

(** Lines 322-335: one turn of the inner loop; [Some None] is [continue]. *)
Definition group_change (got_old_gw_state : bool)
    (old_nqn_state : option NqnState) (ana_grp_index : nat)
    (new_group_state : GW_EXPORTED_STATES_PER_AGROUP_E)
    : option (option ana_group_state) :=
  match no_state_change got_old_gw_state old_nqn_state ana_grp_index
          new_group_state with
  | None => None
  | Some true => Some None
  | Some false =>
      Some (Some {| grp_id := ana_grp_index + 1;
                    state := exported_state new_group_state |})
  end.

(** Lines 316-337: one turn of the outer loop; [Some None] when [nas] has no
    state and is not added to [ai]. *)
Definition nqn_changes (got_old_gw_state : bool)
    (old_subsystems : gmap NQN_ID_T NqnState)
    (nqn_state_pair : NQN_ID_T * NqnState) : option (option nqn_ana_states) :=
  let nqn := nqn_state_pair.1 in
  let sub := nqn_state_pair.2 in
  match mapM id (imap (group_change got_old_gw_state (old_subsystems !! nqn))
                      (ana_state sub)) with
  | None => None
  | Some turns =>
      let nas := {| nqn := nqn; states := omap id turns |} in
      Some (if decide (length (states nas) = 0) then None else Some nas)
  end.

(** Lines 314-338: gather all state changes. *)
Definition gather_state_changes (old_gw_state new_gw_state : option GW_STATE_T)
    : option ana_info :=
  match mapM (nqn_changes (bool_decide (is_Some old_gw_state))
                          (subsystems_of old_gw_state))
             (in_order (subsystems_of new_gw_state)) with
  | None => None
  | Some turns => Some {| ana_info_states := omap id turns |}
  end.

Definition commit (gw : NVMeofGw) (new_map : GW_MAP) : NVMeofGw :=
  {| name := name gw; pool := pool gw; group := group gw; map := new_map |}.

(** Lines 314-353: what follows the first-join block. *)
Definition apply_state_changes (gw : NVMeofGw) (new_map : GW_MAP)
    (old_gw_state new_gw_state : option GW_STATE_T) : M NVMeofGw :=
  ai <- defined (gather_state_changes old_gw_state new_gw_state) ;;
  (if decide (length (ana_info_states ai) = 0) then ret tt
   else retry (set_ana_state ai)) ;;;
  ret (commit gw new_map).

Definition handle_nvmeof_gw_map (gw : NVMeofGw) (new_map : GW_MAP) : M NVMeofGw :=
  let group_key := (pool gw, group gw) in
  let old_gw_state := get_gw_state (map gw) group_key (name gw) in
  let new_gw_state := get_gw_state new_map group_key (name gw) in
  match old_gw_state with
  | None =>
      match new_gw_state with
      | None => ret gw
      | Some new_state =>
          retry (set_group_id (group_id new_state)) ;;;
          apply_state_changes gw new_map old_gw_state new_gw_state
      end
  | Some _ => apply_state_changes gw new_map old_gw_state new_gw_state
  end.

(** ** Vocabulary of the properties *)

(** The change-set [ai] holds the record [gs] in the batch of subsystem [nq]. *)
Definition emitted (ai : ana_info) (nq : NQN_ID_T) (gs : ana_group_state) : Prop :=
  ∃ nas, nas ∈ ana_info_states ai ∧ nqn nas = nq ∧ gs ∈ states nas.

(** Every subsystem that the old and the new state share has an old sequence
    at least as long as the new one. *)
Definition old_covers_new (old_gw_state new_gw_state : option GW_STATE_T) : Prop :=
  ∀ nq old_sub new_sub,
    subsystems_of old_gw_state !! nq = Some old_sub →
    subsystems_of new_gw_state !! nq = Some new_sub →
    length (ana_state new_sub) ≤ length (ana_state old_sub).

(** The events of [k] failed attempts of the call [c]. *)
Definition failed_attempts (c : rpc) (k : nat) : list event :=
  concat (replicate k [call c false; usleep 1000]).

(** Number of positive replies in a script. *)
Definition successes (replies : list bool) : nat :=
  length (filter (λ b, b = true) replies).

(** How a run ended, without the value it returned. *)
Definition outcome {A : Type} (r : result A) : result unit :=
  match r with
  | Returned _ rest => Returned tt rest
  | Blocked c => Blocked c
  | Undefined => Undefined
  end.

(** The batch of a subsystem when each of its indices gives a record. *)
Definition full_batch (nqn_state_pair : NQN_ID_T * NqnState) : option nqn_ana_states :=
  if decide (ana_state nqn_state_pair.2 = []) then None
  else Some {| nqn := nqn_state_pair.1;
               states := imap (λ i v, {| grp_id := i + 1;
                                         state := exported_state v |})
                              (ana_state nqn_state_pair.2) |}.

(** ** [ms_dispatch2] (lines 356-366)

    The tag of a map message is a constant of the message headers. *)
Variable MSG_MNVMEOF_GW_MAP : Z.

Definition ms_dispatch2 (gw : NVMeofGw) (m : Message) : M (NVMeofGw * bool) :=
  gw' <- (if decide (get_type m = MSG_MNVMEOF_GW_MAP)
          then handle_nvmeof_gw_map gw (get_map m)
          else ret gw) ;;
  let handled := false in
  ret (gw', handled).

(** ** [init] (lines 60-178), after the arguments are parsed

    The parsed arguments are the identity of [gw] and [opts]; the three
    results that [init] tests and the reply to the first [get_subsystems] are
    inputs. *)
Definition init (mgr_tick_period : nat) (gw : NVMeofGw) (opts : NVMeofGwOptions)
    (build_initial_monmap_r init_r authenticate_r : Z)
    (gw_subsystems : subsystems_info) (ok : bool) : init_result :=
  if decide (name gw ≠ "" ∧ pool gw ≠ "" ∧ gateway_address opts ≠ ""
             ∧ monitor_address opts ≠ "") then
    if decide (server_key opts = "" ∧ server_cert opts = ""
               ∧ client_cert opts = "") then
      let started :=
        [ init_async_signal_handler; register_async_signal_handler;
          finisher_start;
          add_dispatcher_tail_this; add_dispatcher_head_objecter;
          add_dispatcher_tail_client; client_messenger_start;
          poolctx_start 2;
          monc_build_initial_monmap build_initial_monmap_r ] in
      if decide (build_initial_monmap_r < 0)%Z then
        Exited (-1) (started ++ [client_messenger_shutdown; client_messenger_wait])
      else
        let configured :=
          started ++
          [ monc_sub_want "NVMeofGw"; monc_set_want_keys; monc_set_messenger;
            monc_register_config_callback; monc_register_config_notify_callback;
            monc_init init_r ] in
        if decide (init_r < 0)%Z then
          Exited init_r
            (configured ++
             [monc_shutdown; client_messenger_shutdown; client_messenger_wait])
        else
          let authenticated := configured ++ [monc_authenticate authenticate_r] in
          if decide (authenticate_r < 0)%Z then
            Exited authenticate_r
              (authenticated ++
               [monc_shutdown; client_messenger_shutdown; client_messenger_wait])
          else
            Exited 0
              (authenticated ++
               [ monc_set_passthrough_monmap; client_messenger_set_myname;
                 objecter_set_client_incarnation 0; objecter_init;
                 objecter_start; client_init; timer_init ] ++
               (run <$> tick mgr_tick_period gw gw_subsystems ok))
    else Aborted
  else Aborted.

(** ** The reply script and the retry loop *)

Lemma bind_Returned {A B : Type} (m : M A) (f : A → M B) replies tr b rest :
  bind m f replies = (tr, Returned b rest) →
  ∃ tr1 a rest1 tr2,
    m replies = (tr1, Returned a rest1) ∧
    f a rest1 = (tr2, Returned b rest) ∧ tr = tr1 ++ tr2.
Proof.
  unfold bind. destruct (m replies) as [tr1 [a rest1| |]]; try discriminate.
  destruct (f a rest1) as [tr2 r] eqn:Hf. intros [= <- ->].
  by exists tr1, a, rest1, tr2.
Qed.

Lemma retry_succeeds c k rest :
  retry c (replicate k false ++ true :: rest)
  = (failed_attempts c k ++ [call c true], Returned tt rest).
Proof.
  unfold failed_attempts. induction k as [|k IH]; [done|].
  cbn [replicate app retry concat]. by rewrite IH.
Qed.

Lemma retry_blocked c k :
  retry c (replicate k false) = (failed_attempts c k, Blocked c).
Proof.
  unfold failed_attempts. induction k as [|k IH]; [done|].
  cbn [replicate retry concat app]. by rewrite IH.
Qed.

Lemma replies_cases (replies : list bool) :
  (∃ k, replies = replicate k false) ∨
  (∃ k rest, replies = replicate k false ++ true :: rest).
Proof.
  induction replies as [|[] replies IH].
  - left. by exists 0.
  - right. by exists 0, replies.
  - destruct IH as [[k ->]|(k & rest & ->)].
    + left. by exists (S k).
    + right. by exists (S k), rest.
Qed.

Lemma retry_returns c replies :
  0 < successes replies →
  ∃ tr rest, retry c replies = (tr, Returned tt rest)
             ∧ successes rest = successes replies - 1.
Proof.
  unfold successes. induction replies as [|[] replies IH]; cbn [retry].
  - cbn. lia.
  - intros _. eexists _, _. split; [done|].
    rewrite filter_cons_True by done. cbn. lia.
  - rewrite filter_cons_False by done. intros Hpos.
    destruct (IH Hpos) as (tr & rest & -> & Hrest). by eexists _, _.
Qed.

(** A call other than [c] is not among failed attempts of [c], and in a
    trace that starts with them it comes after what follows them. *)
Lemma failed_attempts_only c k pre e post :
  failed_attempts c k = pre ++ e :: post →
  e = call c false ∨ e = usleep 1000.
Proof.
  revert pre. unfold failed_attempts.
  induction k as [|k IH]; intros pre; cbn [replicate concat app].
  - by destruct pre.
  - destruct pre as [|x [|y pre]]; intros [= ]; subst; eauto.
Qed.

Lemma failed_attempts_then c k s tr pre e post :
  failed_attempts c k ++ s :: tr = pre ++ e :: post →
  e ≠ call c false → e ≠ usleep 1000 → e ≠ s →
  s ∈ pre.
Proof.
  intros Heq Hf Hu Hs. revert pre Heq. unfold failed_attempts.
  induction k as [|k IH]; intros pre; cbn [replicate concat app].
  - destruct pre as [|x pre]; intros [= ]; [congruence|]. subst. left.
  - destruct pre as [|x [|y pre]]; intros [= ]; try congruence.
    subst. do 2 right. by apply IH.
Qed.

(** ** Lists of optional results *)

Lemma omap_id_nil {A : Type} (turns : list (option A)) :
  (∀ t, t ∈ turns → t = None) → omap id turns = [].
Proof.
  induction turns as [|t turns IH]; [done|]. intros Hall.
  rewrite (Hall t) by left. cbn. apply IH. intros t' Ht'. apply Hall. by right.
Qed.

Lemma omap_id_single {A : Type} (turns : list (option A)) i x :
  turns !! i = Some (Some x) →
  (∀ j t, turns !! j = Some t → j ≠ i → t = None) →
  omap id turns = [x].
Proof.
  revert i. induction turns as [|t turns IH]; intros i Hi Hothers; [done|].
  destruct i as [|i]; cbn in Hi.
  - injection Hi as ->. cbn. f_equal. apply omap_id_nil.
    intros t [j Hj]%list_elem_of_lookup. by apply (Hothers (S j)).
  - rewrite (Hothers 0 t) by done. cbn. apply (IH i Hi).
    intros j t' Hj Hne. apply (Hothers (S j)); [done|lia].
Qed.

Lemma mapM_pointwise {A B : Type} (f : A → option B) (h : A → B) (l : list A) :
  (∀ x, x ∈ l → f x = Some (h x)) → mapM f l = Some (h <$> l).
Proof.
  intros Hall. apply mapM_Some_2, Forall2_fmap_r, Forall_Forall2_diag.
  by apply Forall_forall.
Qed.

Lemma mapM_imap_pointwise {A B : Type} (g : nat → A → option B)
    (h : nat → A → B) (l : list A) :
  (∀ i v, l !! i = Some v → g i v = Some (h i v)) →
  mapM id (imap g l) = Some (imap h l).
Proof.
  intros Hall. apply mapM_Some_2, Forall2_same_length_lookup_2.
  - by rewrite !length_imap.
  - intros i x y. rewrite !list_lookup_imap.
    destruct (l !! i) as [v|] eqn:Hv; [|done]. cbn. intros [= <-] [= <-].
    by apply Hall.
Qed.

Lemma mapM_omap_elem {A B : Type} (f : A → option (option B)) (l : list A)
    (turns : list (option B)) (y : B) :
  mapM f l = Some turns →
  y ∈ omap id turns ↔ ∃ x, x ∈ l ∧ f x = Some (Some y).
Proof.
  intros HF%mapM_Some_1. rewrite list_elem_of_omap. split.
  - intros (t & [i Hi]%list_elem_of_lookup & Ht). cbn in Ht. subst t.
    destruct (Forall2_lookup_r _ _ _ _ _ HF Hi) as (x & Hx & Hfx).
    exists x. split; [|done]. apply list_elem_of_lookup. by exists i.
  - intros (x & [i Hi]%list_elem_of_lookup & Hfx).
    destruct (Forall2_lookup_l _ _ _ _ _ HF Hi) as (t & Ht & Hft).
    exists t. split; [|unfold id; congruence].
    apply list_elem_of_lookup. by exists i.
Qed.

Lemma mapM_imap_omap_elem {A B : Type} (g : nat → A → option (option B))
    (l : list A) (turns : list (option B)) (y : B) :
  mapM id (imap g l) = Some turns →
  y ∈ omap id turns ↔ ∃ i v, l !! i = Some v ∧ g i v = Some (Some y).
Proof.
  intros HM. rewrite (mapM_omap_elem _ _ _ _ HM). split.
  - intros (x & [i Hi]%list_elem_of_lookup & Hx). cbn in Hx. subst x.
    rewrite list_lookup_imap in Hi.
    destruct (l !! i) as [v|] eqn:Hv; [|done]. injection Hi as Hi.
    by exists i, v.
  - intros (i & v & Hv & Hg). exists (Some (Some y)). split; [|done].
    apply list_elem_of_lookup. exists i.
    by rewrite list_lookup_imap, Hv; cbn; rewrite Hg.
Qed.

Lemma mapM_imap_is_Some {A B : Type} (g : nat → A → option B) (l : list A) :
  is_Some (mapM id (imap g l)) ↔ ∀ i v, l !! i = Some v → is_Some (g i v).
Proof.
  rewrite mapM_is_Some, Forall_lookup. split.
  - intros Hall i v Hv. apply (Hall i (g i v)).
    by rewrite list_lookup_imap, Hv.
  - intros Hall i x. rewrite list_lookup_imap.
    destruct (l !! i) as [v|] eqn:Hv; [|done]. intros [= <-]. by apply Hall.
Qed.

(** ** Iteration over the subsystems *)

Lemma elem_of_in_order (m : gmap NQN_ID_T NqnState) nq sub :
  (nq, sub) ∈ in_order m ↔ m !! nq = Some sub.
Proof.
  unfold in_order. rewrite merge_sort_Permutation. apply elem_of_map_to_list.
Qed.

Lemma NoDup_fst_in_order (m : gmap NQN_ID_T NqnState) : NoDup (in_order m).*1.
Proof.
  unfold in_order. rewrite merge_sort_Permutation.
  apply NoDup_fst_map_to_list.
Qed.

Lemma in_order_ascending (m : gmap NQN_ID_T NqnState) :
  StronglySorted nqn_le (in_order m).
Proof.
  assert (Transitive nqn_le) by (intros a b c; unfold nqn_le; apply transitivity).
  assert (Total nqn_le) by (intros a b; unfold nqn_le; apply total, _).
  unfold in_order. by apply StronglySorted_merge_sort.
Qed.

Lemma in_order_empty : in_order ∅ = [].
Proof. unfold in_order. by rewrite map_to_list_empty. Qed.

(** ** The diff: when it is defined and what it holds *)

Lemma no_state_change_spec (old : option GW_STATE_T) nq i v :
  (∀ old_sub, subsystems_of old !! nq = Some old_sub →
              i < length (ana_state old_sub)) →
  ∃ b, no_state_change (bool_decide (is_Some old)) (subsystems_of old !! nq) i v
       = Some b
       ∧ (b = true ↔ ∃ o old_sub, old = Some o ∧ subsystems o !! nq = Some old_sub
                                  ∧ ana_state old_sub !! i = Some v).
Proof.
  intros Hin. unfold no_state_change. destruct old as [o|]; cbn.
  - destruct (subsystems o !! nq) as [old_sub|] eqn:Hsub.
    + destruct (lookup_lt_is_Some_2 (ana_state old_sub) i) as [w Hw]; [eauto|].
      rewrite Hw. eexists. split; [done|]. rewrite bool_decide_eq_true. split.
      * intros ->. by exists o, old_sub.
      * intros (o' & old_sub' & [= <-] & Hsub' & Hw'). congruence.
    + exists false. split; [done|]. split; [done|].
      intros (o' & old_sub' & [= <-] & Hsub' & _). congruence.
  - exists false. split; [done|]. split; [done|]. by intros (? & ? & ? & _).
Qed.

Lemma group_change_is_Some (old : option GW_STATE_T) nq i v :
  is_Some (group_change (bool_decide (is_Some old)) (subsystems_of old !! nq) i v)
  ↔ (∀ old_sub, subsystems_of old !! nq = Some old_sub →
                i < length (ana_state old_sub)).
Proof.
  split.
  - unfold group_change, no_state_change. intros HS old_sub Hsub.
    destruct old as [o|]; [|done]. cbn in *.
    rewrite Hsub in HS.
    destruct (ana_state old_sub !! i) eqn:Hi; [by eapply lookup_lt_Some|].
    by destruct HS.
  - intros Hin. unfold group_change.
    destruct (no_state_change_spec old nq i v Hin) as (b & -> & _).
    by destruct b.
Qed.

Lemma group_change_emits got old_nqn i v gs :
  group_change got old_nqn i v = Some (Some gs) ↔
  no_state_change got old_nqn i v = Some false
  ∧ gs = {| grp_id := i + 1; state := exported_state v |}.
Proof.
  unfold group_change.
  destruct (no_state_change got old_nqn i v) as [[]|];
    (split; [intros [= <-]|intros [[= ] ->]]); done.
Qed.

Lemma nqn_changes_inv got olds p r :
  nqn_changes got olds p = Some r →
  ∃ turns,
    mapM id (imap (group_change got (olds !! p.1)) (ana_state p.2)) = Some turns
    ∧ r = (if decide (length (omap id turns) = 0) then None
           else Some {| nqn := p.1; states := omap id turns |}).
Proof.
  unfold nqn_changes.
  destruct (mapM id _) as [turns|]; [|done]. intros [= <-]. by exists turns.
Qed.

Lemma nqn_changes_is_Some (old : option GW_STATE_T) nq sub :
  is_Some (nqn_changes (bool_decide (is_Some old)) (subsystems_of old) (nq, sub))
  ↔ (∀ old_sub, subsystems_of old !! nq = Some old_sub →
                length (ana_state sub) ≤ length (ana_state old_sub)).
Proof.
  transitivity (is_Some (mapM id (imap
    (group_change (bool_decide (is_Some old)) (subsystems_of old !! nq))
    (ana_state sub)))).
  { unfold nqn_changes. cbn. destruct (mapM id _); [|by split; intros []].
    split; eauto. }
  rewrite mapM_imap_is_Some. split.
  - intros Hall old_sub Hsub.
    destruct (decide (length (ana_state sub) = 0)) as [->|Hne]; [lia|].
    destruct (lookup_lt_is_Some_2 (ana_state sub) (length (ana_state sub) - 1))
      as [v0 Hlast]; [lia|].
    pose proof (proj1 (group_change_is_Some _ _ _ _) (Hall _ _ Hlast) _ Hsub).
    lia.
  - intros Hlen i v Hv. apply group_change_is_Some. intros old_sub Hsub.
    apply lookup_lt_Some in Hv. specialize (Hlen _ Hsub). lia.
Qed.

Lemma gather_state_changes_is_Some old new :
  is_Some (gather_state_changes old new) ↔ old_covers_new old new.
Proof.
  transitivity (is_Some (mapM
    (nqn_changes (bool_decide (is_Some old)) (subsystems_of old))
    (in_order (subsystems_of new)))).
  { unfold gather_state_changes. destruct (mapM _ _); [|by split; intros []].
    split; eauto. }
  rewrite mapM_is_Some, Forall_forall. unfold old_covers_new. split.
  - intros Hall nq old_sub new_sub Hold Hnew.
    apply elem_of_in_order, Hall in Hnew. cbn in Hnew.
    exact (proj1 (nqn_changes_is_Some _ _ _) Hnew _ Hold).
  - intros Hcov [nq sub] Hin%elem_of_in_order. cbn.
    apply nqn_changes_is_Some. intros old_sub Hold. eauto.
Qed.

Lemma gather_state_changes_emitted old new ai nq gs :
  gather_state_changes old new = Some ai →
  emitted ai nq gs ↔
  ∃ sub i v,
    subsystems_of new !! nq = Some sub ∧ ana_state sub !! i = Some v ∧
    group_change (bool_decide (is_Some old)) (subsystems_of old !! nq) i v
    = Some (Some gs).
Proof.
  unfold gather_state_changes, emitted.
  destruct (mapM _ _) as [turns|] eqn:HM; [|done]. intros [= <-]. cbn. split.
  - intros (nas & Hnas & <- & Hgs).
    apply (mapM_omap_elem _ _ _ _ HM) in Hnas as ([nq sub] & Hin & Hch).
    apply nqn_changes_inv in Hch as (turns' & HM' & Hr). cbn in HM', Hr.
    case_decide; [done|]. injection Hr as ->. cbn in *.
    apply (mapM_imap_omap_elem _ _ _ _ HM') in Hgs as (i & v & Hv & Hg).
    exists sub, i, v. by rewrite <-elem_of_in_order.
  - intros (sub & i & v & Hin%elem_of_in_order & Hv & Hg).
    apply list_elem_of_lookup in Hin as [j Hj].
    destruct (Forall2_lookup_l _ _ _ _ _ (mapM_Some_1 _ _ _ HM) Hj)
      as (t & _ & Hch).
    assert (Hch' := Hch).
    apply nqn_changes_inv in Hch' as (turns' & HM' & ->). cbn in HM'.
    assert (Hgs : gs ∈ omap id turns').
    { apply (mapM_imap_omap_elem _ _ _ _ HM'). eauto. }
    exists {| nqn := nq; states := omap id turns' |}. split; [|done].
    apply (mapM_omap_elem _ _ _ _ HM). exists (nq, sub).
    split; [apply list_elem_of_lookup; eauto|].
    rewrite Hch. case_decide as Hlen; [|done].
    apply nil_length_inv in Hlen. rewrite Hlen in Hgs.
    by apply elem_of_nil in Hgs.
Qed.

(** ** The diff: batches with no record and with one record *)

Lemma nqn_changes_none got olds p :
  (∀ i v, ana_state p.2 !! i = Some v →
          group_change got (olds !! p.1) i v = Some None) →
  nqn_changes got olds p = Some None.
Proof.
  intros Hall. unfold nqn_changes.
  rewrite (mapM_imap_pointwise _ (λ _ _, None)) by done. cbn.
  rewrite omap_id_nil; [done|].
  intros t [i Hi]%list_elem_of_lookup. rewrite list_lookup_imap in Hi.
  destruct (ana_state p.2 !! i); by inversion Hi.
Qed.

Lemma nqn_changes_single got olds p i0 v0 gs :
  ana_state p.2 !! i0 = Some v0 →
  group_change got (olds !! p.1) i0 v0 = Some (Some gs) →
  (∀ i v, ana_state p.2 !! i = Some v → i ≠ i0 →
          group_change got (olds !! p.1) i v = Some None) →
  nqn_changes got olds p = Some (Some {| nqn := p.1; states := [gs] |}).
Proof.
  intros Hv0 Hg Hothers. unfold nqn_changes.
  rewrite (mapM_imap_pointwise _
    (λ i _, if decide (i = i0) then Some gs else None)).
  - cbn. rewrite (omap_id_single _ i0 gs); [done| |].
    + rewrite list_lookup_imap, Hv0. cbn. by rewrite decide_True.
    + intros j t Hj Hne. rewrite list_lookup_imap in Hj.
      destruct (ana_state p.2 !! j); [|done]. cbn in Hj.
      rewrite decide_False in Hj by done. by injection Hj.
  - intros i v Hv. case_decide as Hi; [|by apply Hothers].
    subst i. congruence.
Qed.

Lemma gather_state_changes_none old new :
  (∀ nq sub, subsystems_of new !! nq = Some sub →
     nqn_changes (bool_decide (is_Some old)) (subsystems_of old) (nq, sub)
     = Some None) →
  gather_state_changes old new = Some {| ana_info_states := [] |}.
Proof.
  intros Hall. unfold gather_state_changes.
  rewrite (mapM_pointwise _ (λ _, None)).
  - rewrite omap_id_nil; [done|]. by intros t (? & -> & _)%list_elem_of_fmap.
  - intros [nq sub] Hin%elem_of_in_order. by apply Hall.
Qed.

Lemma gather_state_changes_single old new nq0 sub0 nas :
  subsystems_of new !! nq0 = Some sub0 →
  nqn_changes (bool_decide (is_Some old)) (subsystems_of old) (nq0, sub0)
  = Some (Some nas) →
  (∀ nq sub, subsystems_of new !! nq = Some sub → nq ≠ nq0 →
     nqn_changes (bool_decide (is_Some old)) (subsystems_of old) (nq, sub)
     = Some None) →
  gather_state_changes old new = Some {| ana_info_states := [nas] |}.
Proof.
  intros Hsub0 Hch Hothers. unfold gather_state_changes.
  rewrite (mapM_pointwise _ (λ p, if decide (p.1 = nq0) then Some nas else None)).
  - assert (Hin : (nq0, sub0) ∈ in_order (subsystems_of new))
      by by apply elem_of_in_order.
    apply list_elem_of_lookup in Hin as [j0 Hj0].
    rewrite (omap_id_single _ j0 nas); [done| |].
    + rewrite list_lookup_fmap, Hj0. cbn. by rewrite decide_True.
    + intros j t Hj Hne. rewrite list_lookup_fmap in Hj.
      destruct (in_order (subsystems_of new) !! j) as [p|] eqn:Hp; [|done].
      cbn in Hj. case_decide as Hkey; [|by injection Hj]. destruct Hne.
      apply (NoDup_lookup _ j j0 nq0 (NoDup_fst_in_order (subsystems_of new)));
        rewrite list_lookup_fmap.
      * by rewrite Hp; cbn; rewrite Hkey.
      * by rewrite Hj0.
  - intros [nq sub] Hin%elem_of_in_order. cbn. case_decide as Hkey.
    + subst nq. congruence.
    + by apply Hothers.
Qed.

(** ** Runs of the handler *)

Lemma retry_defined c replies : (retry c replies).2 ≠ Undefined.
Proof.
  induction replies as [|[] replies IH]; cbn; try done.
  by destruct (retry c replies).
Qed.

Lemma apply_state_changes_undefined gw new_map old new replies :
  gather_state_changes old new = None →
  apply_state_changes gw new_map old new replies = ([], Undefined).
Proof. intros Hg. unfold apply_state_changes, bind, defined. by rewrite Hg. Qed.

Lemma apply_state_changes_no_change gw new_map old new replies :
  gather_state_changes old new = Some {| ana_info_states := [] |} →
  apply_state_changes gw new_map old new replies
  = ([], Returned (commit gw new_map) replies).
Proof. intros Hg. unfold apply_state_changes, bind, defined. by rewrite Hg. Qed.

Lemma apply_state_changes_notify gw new_map old new ai replies :
  gather_state_changes old new = Some ai →
  ana_info_states ai ≠ [] →
  apply_state_changes gw new_map old new replies
  = match retry (set_ana_state ai) replies with
    | (tr, Returned _ rest) => (tr, Returned (commit gw new_map) rest)
    | (tr, Blocked c) => (tr, Blocked c)
    | (tr, Undefined) => (tr, Undefined)
    end.
Proof.
  intros Hg Hne. unfold apply_state_changes, bind, defined. rewrite Hg. cbn.
  rewrite decide_False by (by intros ?%nil_length_inv).
  destruct (retry (set_ana_state ai) replies) as [tr [[] rest| |]]; cbn;
    by rewrite ?app_nil_r.
Qed.

Lemma group_change_same (olds : gmap NQN_ID_T NqnState) nq sub i v :
  olds !! nq = Some sub → ana_state sub !! i = Some v →
  group_change true (olds !! nq) i v = Some None.
Proof.
  intros -> Hv. unfold group_change, no_state_change. rewrite Hv.
  by rewrite bool_decide_eq_true_2.
Qed.

Lemma nqn_changes_same (olds : gmap NQN_ID_T NqnState) nq sub :
  olds !! nq = Some sub → nqn_changes true olds (nq, sub) = Some None.
Proof.
  intros Hsub. apply nqn_changes_none. intros i v Hv.
  by apply group_change_same with sub.
Qed.

Lemma gather_state_changes_same st :
  gather_state_changes (Some st) (Some st) = Some {| ana_info_states := [] |}.
Proof.
  apply gather_state_changes_none. intros nq sub Hsub. cbn in *.
  by apply nqn_changes_same.
Qed.

Lemma gather_state_changes_removed old :
  gather_state_changes old None = Some {| ana_info_states := [] |}.
Proof. apply gather_state_changes_none. intros nq sub. by cbn. Qed.

Lemma gather_state_changes_one_index o n nq old_sub i old_v v :
  subsystems o !! nq = Some old_sub →
  ana_state old_sub !! i = Some old_v →
  v ≠ old_v →
  subsystems n
  = <[nq := {| ana_state := <[i := v]> (ana_state old_sub) |}]> (subsystems o) →
  gather_state_changes (Some o) (Some n)
  = Some {| ana_info_states :=
              [ {| nqn := nq;
                   states := [ {| grp_id := i + 1;
                                  state := exported_state v |} ] |} ] |}.
Proof.
  intros Hsub Hold Hne Hn.
  apply (gather_state_changes_single _ _ nq
           {| ana_state := <[i := v]> (ana_state old_sub) |}); cbn.
  - by rewrite Hn, lookup_insert_eq.
  - apply (nqn_changes_single true (subsystems o) (nq, _) i v); cbn.
    + apply list_lookup_insert_eq. by eapply lookup_lt_Some.
    + unfold group_change, no_state_change. rewrite Hsub, Hold.
      by rewrite bool_decide_eq_false_2.
    + intros j w Hw Hj. rewrite list_lookup_insert_ne in Hw by done.
      by apply group_change_same with old_sub.
  - intros nq' sub Hsub' Hnq. rewrite Hn, lookup_insert_ne in Hsub' by done.
    by apply nqn_changes_same.
Qed.

(** * Properties of the diff *)

(** C5. The state placed in a change record is [OPTIMIZED] exactly when the
    raw value is [GW_EXPORTED_OPTIMIZED_STATE] and [INACCESSIBLE] for every
    other raw value, whatever integer it is; and every record of a computed
    change-set carries, for the group id [i + 1], the collapse of the raw
    value at index [i] of that subsystem in the new state. *)
Theorem exported_state_collapse :
  (∀ raw : GW_EXPORTED_STATES_PER_AGROUP_E,
     (exported_state raw = OPTIMIZED ↔ raw = GW_EXPORTED_OPTIMIZED_STATE) ∧
     (exported_state raw = INACCESSIBLE ↔ raw ≠ GW_EXPORTED_OPTIMIZED_STATE)) ∧
  (∀ old new ai nq gs,
     gather_state_changes old new = Some ai →
     emitted ai nq gs →
     ∃ sub i raw,
       subsystems_of new !! nq = Some sub ∧ ana_state sub !! i = Some raw ∧
       grp_id gs = i + 1 ∧
       (state gs = OPTIMIZED ↔ raw = GW_EXPORTED_OPTIMIZED_STATE) ∧
       (state gs = INACCESSIBLE ↔ raw ≠ GW_EXPORTED_OPTIMIZED_STATE)).
Proof.
  assert (Hcollapse : ∀ raw : Z,
     (exported_state raw = OPTIMIZED ↔ raw = GW_EXPORTED_OPTIMIZED_STATE) ∧
     (exported_state raw = INACCESSIBLE ↔ raw ≠ GW_EXPORTED_OPTIMIZED_STATE)).
  { intros raw. unfold exported_state. case_decide; split; split; done. }
  split; [done|]. intros old new ai nq gs Hg Hem.
  apply (gather_state_changes_emitted _ _ _ _ _ Hg) in Hem
    as (sub & i & raw & Hsub & Hraw & Hch).
  apply group_change_emits in Hch as [_ ->]. exists sub, i, raw. cbn.
  destruct (Hcollapse raw). done.
Qed.

(** C2, with the bound on the old sequences as a premise.  When every subsystem shared by the old and the new state
    has an old sequence at least as long as the new one, the diff is defined
    and, for every subsystem [nq] of the new state and every index [i] of its
    sequence with value [v], the record [{nq, i + 1, collapse v}] is in the
    change-set if and only if it is not the case that the old state exists,
    has [nq] and holds [v] at index [i].  In particular a new state that
    differs from the old one in one index of one subsystem gives exactly one
    batch with exactly one record, and a subsystem that only the new state
    has gives a record for each of its indices. *)
Theorem change_record_emitted_iff (old : option GW_STATE_T) (n : GW_STATE_T) :
  old_covers_new old (Some n) →
  ∃ ai, gather_state_changes old (Some n) = Some ai ∧
    (∀ nq sub i v,
       subsystems n !! nq = Some sub → ana_state sub !! i = Some v →
       emitted ai nq {| grp_id := i + 1; state := exported_state v |} ↔
       ¬ ∃ o old_sub, old = Some o ∧ subsystems o !! nq = Some old_sub
                      ∧ ana_state old_sub !! i = Some v) ∧
    (∀ o nq old_sub i old_v v,
       old = Some o → subsystems o !! nq = Some old_sub →
       ana_state old_sub !! i = Some old_v → v ≠ old_v →
       subsystems n
       = <[nq := {| ana_state := <[i := v]> (ana_state old_sub) |}]>
           (subsystems o) →
       ana_info_states ai
       = [ {| nqn := nq;
              states := [ {| grp_id := i + 1;
                             state := exported_state v |} ] |} ]) ∧
    (∀ nq sub,
       subsystems n !! nq = Some sub → subsystems_of old !! nq = None →
       ∀ i v, ana_state sub !! i = Some v →
              emitted ai nq {| grp_id := i + 1; state := exported_state v |}).
Proof.
  intros Hcov.
  destruct (proj2 (gather_state_changes_is_Some old (Some n)) Hcov) as [ai Hai].
  exists ai. split; [done|].
  assert (Hiff : ∀ nq sub i v,
     subsystems n !! nq = Some sub → ana_state sub !! i = Some v →
     emitted ai nq {| grp_id := i + 1; state := exported_state v |} ↔
     ¬ ∃ o old_sub, old = Some o ∧ subsystems o !! nq = Some old_sub
                    ∧ ana_state old_sub !! i = Some v).
  { intros nq sub i v Hsub Hv.
    assert (Hin : ∀ old_sub, subsystems_of old !! nq = Some old_sub →
                             i < length (ana_state old_sub)).
    { intros old_sub Hold. apply lookup_lt_Some in Hv.
      specialize (Hcov nq old_sub sub Hold Hsub). lia. }
    destruct (no_state_change_spec old nq i v Hin) as (b & Hb & Hsame).
    rewrite (gather_state_changes_emitted _ _ _ _ _ Hai). split.
    - intros (sub' & i' & v' & Hsub' & Hv' & Hch) Hex.
      apply group_change_emits in Hch as [Hch [= Hi _]].
      assert (i' = i) as -> by lia. cbn in Hsub'.
      assert (sub' = sub) as -> by congruence.
      assert (v' = v) as -> by congruence.
      apply Hsame in Hex. congruence.
    - intros Hex. exists sub, i, v. split_and!; [done..|].
      apply group_change_emits. split; [|done]. rewrite Hb.
      destruct b; [|done]. destruct Hex. by apply Hsame. }
  split_and!; [done| |].
  - intros o nq old_sub i old_v v -> Hsub Hold Hne Hn.
    rewrite (gather_state_changes_one_index o n nq old_sub i old_v v) in Hai
      by done.
    by injection Hai as <-.
  - intros nq sub Hsub Hnone i v Hv. apply (Hiff nq sub i v Hsub Hv).
    intros (o & old_sub & -> & Hold & _). cbn in Hnone. congruence.
Qed.

(** C3, with the bound on the old sequences as a premise.  When every subsystem shared by the old and the new state
    has an old sequence at least as long as the new one, every index at which
    the diff reads an old sequence is below the length of that sequence: the
    read yields a value, the diff is defined and no run of the handler ends
    undefined. *)
Theorem old_sequence_reads_in_bounds (gw : NVMeofGw) (new_map : GW_MAP)
    (old new : option GW_STATE_T) :
  old = get_gw_state (map gw) (pool gw, group gw) (name gw) →
  new = get_gw_state new_map (pool gw, group gw) (name gw) →
  old_covers_new old new →
  (∀ nq old_sub new_sub i v,
     subsystems_of old !! nq = Some old_sub →
     subsystems_of new !! nq = Some new_sub →
     ana_state new_sub !! i = Some v →
     i < length (ana_state old_sub) ∧
     is_Some (no_state_change (bool_decide (is_Some old))
                (subsystems_of old !! nq) i v)) ∧
  is_Some (gather_state_changes old new) ∧
  (∀ replies, (handle_nvmeof_gw_map gw new_map replies).2 ≠ Undefined).
Proof.
  intros Hold Hnew Hcov.
  assert (Hdef : is_Some (gather_state_changes old new))
    by by apply gather_state_changes_is_Some.
  split_and!; [|done|].
  - intros nq old_sub new_sub i v Ho Hn Hv.
    assert (Hlt : i < length (ana_state old_sub)).
    { apply lookup_lt_Some in Hv. specialize (Hcov _ _ _ Ho Hn). lia. }
    split; [done|].
    destruct (no_state_change_spec old nq i v) as (b & -> & _); [|done].
    intros old_sub' Ho'. congruence.
  - intros replies. unfold handle_nvmeof_gw_map. rewrite <-Hold, <-Hnew.
    destruct Hdef as [ai Hai].
    assert (Hrun : ∀ rs, (apply_state_changes gw new_map old new rs).2
                         ≠ Undefined).
    { intros rs. destruct (decide (ana_info_states ai = [])) as [Hnil|Hne].
      - destruct ai as [l]. cbn in Hnil. subst l.
        by rewrite (apply_state_changes_no_change _ _ _ _ _ Hai).
      - rewrite (apply_state_changes_notify _ _ _ _ _ _ Hai Hne).
        pose proof (retry_defined (set_ana_state ai) rs) as Hr.
        by destruct (retry (set_ana_state ai) rs) as [tr [[] rest| |]]. }
    destruct old as [o|]; [apply Hrun|]. destruct new as [nw|]; [|done].
    unfold bind.
    pose proof (retry_defined (set_group_id (group_id nw)) replies) as Hr.
    destruct (retry (set_group_id (group_id nw)) replies)
      as [tr [[] rest| |]]; [|done..].
    specialize (Hrun rest).
    by destruct (apply_state_changes gw new_map None (Some nw) rest).
Qed.

(** * Properties of the handler *)

Lemma handle_first_join gw new_map new_state replies :
  get_gw_state (map gw) (pool gw, group gw) (name gw) = None →
  get_gw_state new_map (pool gw, group gw) (name gw) = Some new_state →
  handle_nvmeof_gw_map gw new_map replies
  = bind (retry (set_group_id (group_id new_state)))
         (λ _, apply_state_changes gw new_map None (Some new_state)) replies.
Proof. intros Hold Hnew. unfold handle_nvmeof_gw_map. by rewrite Hold, Hnew. Qed.

Lemma handle_known gw new_map old_state replies :
  get_gw_state (map gw) (pool gw, group gw) (name gw) = Some old_state →
  handle_nvmeof_gw_map gw new_map replies
  = apply_state_changes gw new_map (Some old_state)
      (get_gw_state new_map (pool gw, group gw) (name gw)) replies.
Proof. intros Hold. unfold handle_nvmeof_gw_map. by rewrite Hold. Qed.

Lemma apply_state_changes_Returned gw new_map old new replies tr gw' rest :
  apply_state_changes gw new_map old new replies = (tr, Returned gw' rest) →
  gw' = commit gw new_map.
Proof.
  destruct (gather_state_changes old new) as [ai|] eqn:Hai.
  - destruct (decide (ana_info_states ai = [])) as [Hnil|Hne].
    + destruct ai as [l]. cbn in Hnil. subst l.
      rewrite (apply_state_changes_no_change _ _ _ _ _ Hai). congruence.
    + rewrite (apply_state_changes_notify _ _ _ _ _ _ Hai Hne).
      destruct (retry (set_ana_state ai) replies) as [tr' [[] rest'| |]];
        congruence.
  - by rewrite apply_state_changes_undefined.
Qed.

Lemma apply_state_changes_returns gw new_map old new replies :
  is_Some (gather_state_changes old new) → 1 ≤ successes replies →
  ∃ tr rest, apply_state_changes gw new_map old new replies
             = (tr, Returned (commit gw new_map) rest).
Proof.
  intros [ai Hai] Hpos.
  destruct (decide (ana_info_states ai = [])) as [Hnil|Hne].
  - destruct ai as [l]. cbn in Hnil. subst l.
    rewrite (apply_state_changes_no_change _ _ _ _ _ Hai). by eexists _, _.
  - rewrite (apply_state_changes_notify _ _ _ _ _ _ Hai Hne).
    destruct (retry_returns (set_ana_state ai) replies) as (tr & rest & -> & _);
      [lia|].
    by eexists _, _.
Qed.

Lemma apply_state_changes_frame gw1 gw2 m1 m2 old new replies :
  (apply_state_changes gw1 m1 old new replies).1
  = (apply_state_changes gw2 m2 old new replies).1
  ∧ outcome (apply_state_changes gw1 m1 old new replies).2
    = outcome (apply_state_changes gw2 m2 old new replies).2.
Proof.
  destruct (gather_state_changes old new) as [ai|] eqn:Hai.
  - destruct (decide (ana_info_states ai = [])) as [Hnil|Hne].
    + destruct ai as [l]. cbn in Hnil. subst l.
      by rewrite !(apply_state_changes_no_change _ _ _ _ _ Hai).
    + rewrite !(apply_state_changes_notify _ _ _ _ _ _ Hai Hne).
      by destruct (retry (set_ana_state ai) replies) as [tr [[] rest| |]].
  - by rewrite !apply_state_changes_undefined.
Qed.

(** The calls of the second phase are [set_ana_state] calls. *)
Lemma apply_state_changes_blocked gw new_map old new replies c :
  (apply_state_changes gw new_map old new replies).2 = Blocked c →
  ∃ ai, gather_state_changes old new = Some ai ∧ ana_info_states ai ≠ []
        ∧ c = set_ana_state ai.
Proof.
  destruct (gather_state_changes old new) as [ai|] eqn:Hai.
  - destruct (decide (ana_info_states ai = [])) as [Hnil|Hne].
    + destruct ai as [l]. cbn in Hnil. subst l.
      by rewrite (apply_state_changes_no_change _ _ _ _ _ Hai).
    + rewrite (apply_state_changes_notify _ _ _ _ _ _ Hai Hne).
      destruct (replies_cases replies) as [[k ->]|(k & rest & ->)].
      * rewrite retry_blocked. cbn. intros [= <-]. by exists ai.
      * by rewrite retry_succeeds.
  - by rewrite apply_state_changes_undefined.
Qed.

Lemma handle_Returned gw new_map new_state replies tr gw' rest :
  get_gw_state new_map (pool gw, group gw) (name gw) = Some new_state →
  handle_nvmeof_gw_map gw new_map replies = (tr, Returned gw' rest) →
  gw' = commit gw new_map.
Proof.
  intros Hnew Hrun.
  destruct (get_gw_state (map gw) (pool gw, group gw) (name gw))
    as [old_state|] eqn:Hold.
  - rewrite (handle_known _ _ _ _ Hold) in Hrun.
    by apply apply_state_changes_Returned in Hrun.
  - rewrite (handle_first_join _ _ _ _ Hold Hnew) in Hrun.
    apply bind_Returned in Hrun as (tr1 & [] & rest1 & tr2 & _ & Hrun & _).
    by apply apply_state_changes_Returned in Hrun.
Qed.

(** C1, in the form that holds of the code.  When the new map has no entry for the agent's identity the
    handler makes no remote call and returns.  If the last-applied map has no
    entry either, the agent is left as it was; if the last-applied map has
    one, the new map takes its place. *)
Theorem no_new_entry_no_call (gw : NVMeofGw) (new_map : GW_MAP) (replies : list bool) :
  get_gw_state new_map (pool gw, group gw) (name gw) = None →
  (handle_nvmeof_gw_map gw new_map replies).1 = [] ∧
  (get_gw_state (map gw) (pool gw, group gw) (name gw) = None →
   handle_nvmeof_gw_map gw new_map replies = ([], Returned gw replies)) ∧
  (is_Some (get_gw_state (map gw) (pool gw, group gw) (name gw)) →
   handle_nvmeof_gw_map gw new_map replies
   = ([], Returned (commit gw new_map) replies)).
Proof.
  intros Hnew.
  destruct (get_gw_state (map gw) (pool gw, group gw) (name gw))
    as [old_state|] eqn:Hold.
  - rewrite (handle_known _ _ _ _ Hold), Hnew.
    rewrite (apply_state_changes_no_change _ _ _ _ _
               (gather_state_changes_removed _)).
    split_and!; [done| |done]. by intros [=].
  - unfold handle_nvmeof_gw_map. rewrite Hold, Hnew.
    split_and!; [done..|]. by intros [? [=]].
Qed.

(** C4.  On first join (no entry in the last-applied map, an entry in the
    new map) the handler calls [set_group_id] with the new group id, and
    after each failure sleeps the same delay and calls again, however many
    failures there are; only once the call has succeeded does it compute and
    deliver the change-set.  So in every run a [set_ana_state] call, answered
    or pending, comes after a successful [set_group_id]. *)
Theorem first_join_gating (gw : NVMeofGw) (new_map : GW_MAP) (new_state : GW_STATE_T) :
  get_gw_state (map gw) (pool gw, group gw) (name gw) = None →
  get_gw_state new_map (pool gw, group gw) (name gw) = Some new_state →
  ∃ ai, gather_state_changes None (Some new_state) = Some ai ∧
    (∀ k, handle_nvmeof_gw_map gw new_map (replicate k false)
          = (failed_attempts (set_group_id (group_id new_state)) k,
             Blocked (set_group_id (group_id new_state)))) ∧
    (∀ k rest, ana_info_states ai = [] →
       handle_nvmeof_gw_map gw new_map (replicate k false ++ true :: rest)
       = (failed_attempts (set_group_id (group_id new_state)) k
          ++ [call (set_group_id (group_id new_state)) true],
          Returned (commit gw new_map) rest)) ∧
    (∀ k j rest, ana_info_states ai ≠ [] →
       handle_nvmeof_gw_map gw new_map
         (replicate k false ++ true :: replicate j false ++ true :: rest)
       = (failed_attempts (set_group_id (group_id new_state)) k
          ++ [call (set_group_id (group_id new_state)) true]
          ++ failed_attempts (set_ana_state ai) j
          ++ [call (set_ana_state ai) true],
          Returned (commit gw new_map) rest)) ∧
    (∀ replies pre ai' ok post,
       (handle_nvmeof_gw_map gw new_map replies).1
       = pre ++ call (set_ana_state ai') ok :: post →
       call (set_group_id (group_id new_state)) true ∈ pre) ∧
    (∀ replies ai',
       (handle_nvmeof_gw_map gw new_map replies).2 = Blocked (set_ana_state ai') →
       call (set_group_id (group_id new_state)) true
       ∈ (handle_nvmeof_gw_map gw new_map replies).1).
Proof.
  intros Hold Hnew.
  destruct (proj2 (gather_state_changes_is_Some None (Some new_state)))
    as [ai Hai]; [by intros nq old_sub new_sub|].
  exists ai. split; [done|].
  assert (Hfail : ∀ k, handle_nvmeof_gw_map gw new_map (replicate k false)
          = (failed_attempts (set_group_id (group_id new_state)) k,
             Blocked (set_group_id (group_id new_state)))).
  { intros k. rewrite (handle_first_join _ _ _ _ Hold Hnew). unfold bind.
    by rewrite retry_blocked. }
  assert (Hok : ∀ k rest,
          handle_nvmeof_gw_map gw new_map (replicate k false ++ true :: rest)
          = (failed_attempts (set_group_id (group_id new_state)) k
             ++ call (set_group_id (group_id new_state)) true
             :: (apply_state_changes gw new_map None (Some new_state) rest).1,
             (apply_state_changes gw new_map None (Some new_state) rest).2)).
  { intros k rest. rewrite (handle_first_join _ _ _ _ Hold Hnew). unfold bind.
    rewrite retry_succeeds.
    destruct (apply_state_changes gw new_map None (Some new_state) rest).
    cbn. by rewrite <-app_assoc. }
  split_and!; [done| | | |].
  - intros k rest Hnil. rewrite Hok. destruct ai as [l]. cbn in Hnil. subst l.
    by rewrite (apply_state_changes_no_change _ _ _ _ _ Hai).
  - intros k j rest Hne. rewrite Hok.
    rewrite (apply_state_changes_notify _ _ _ _ _ _ Hai Hne), retry_succeeds.
    done.
  - intros replies pre ai' ok post.
    destruct (replies_cases replies) as [[k ->]|(k & rest & ->)].
    + rewrite Hfail. cbn. by intros [[=]|[=]]%failed_attempts_only.
    + rewrite Hok. cbn. intros Htr.
      by apply (failed_attempts_then _ _ _ _ _ _ _ Htr).
  - intros replies ai'.
    destruct (replies_cases replies) as [[k ->]|(k & rest & ->)].
    + by rewrite Hfail.
    + rewrite Hok. cbn. intros _. apply elem_of_app. right. left.
Qed.

(** C7.  When the new map has an entry for the agent's identity, every run
    of the handler that returns leaves the agent with the new map, whole, as
    its last-applied map, whether the change-set was empty or not; and the
    handler does return once each retry loop gets a positive reply. *)
Theorem commit_replaces_map (gw : NVMeofGw) (new_map : GW_MAP) (new_state : GW_STATE_T) :
  get_gw_state new_map (pool gw, group gw) (name gw) = Some new_state →
  (∀ replies tr gw' rest,
     handle_nvmeof_gw_map gw new_map replies = (tr, Returned gw' rest) →
     gw' = commit gw new_map ∧ map gw' = new_map) ∧
  (old_covers_new (get_gw_state (map gw) (pool gw, group gw) (name gw))
                  (Some new_state) →
   ∀ replies, 2 ≤ successes replies →
     ∃ tr rest, handle_nvmeof_gw_map gw new_map replies
                = (tr, Returned (commit gw new_map) rest)).
Proof.
  intros Hnew. split.
  - intros replies tr gw' rest Hrun.
    by rewrite (handle_Returned _ _ _ _ _ _ _ Hnew Hrun).
  - intros Hcov%gather_state_changes_is_Some replies Hpos.
    destruct (get_gw_state (map gw) (pool gw, group gw) (name gw))
      as [old_state|] eqn:Hold.
    + rewrite (handle_known _ _ _ _ Hold), Hnew.
      apply apply_state_changes_returns; [done|lia].
    + rewrite (handle_first_join _ _ _ _ Hold Hnew). unfold bind.
      destruct (retry_returns (set_group_id (group_id new_state)) replies)
        as (tr1 & rest1 & -> & Hrest); [lia|].
      destruct (apply_state_changes_returns gw new_map None (Some new_state)
                  rest1) as (tr2 & rest2 & ->); [done|lia|].
      by eexists _, _.
Qed.

(** C8.  Let [m] be a map with an entry for the agent's identity.  Once a
    run of the handler on [m] has returned, [m] is the last-applied map; a
    second run on [m] computes the empty change-set, makes no remote call
    whatever the replies would be, and commits [m] again. *)
Theorem reconcile_same_map_twice (gw : NVMeofGw) (m : GW_MAP) (st : GW_STATE_T)
    (replies : list bool) (tr : list event) (gw1 : NVMeofGw) (rest : list bool) :
  get_gw_state m (pool gw, group gw) (name gw) = Some st →
  handle_nvmeof_gw_map gw m replies = (tr, Returned gw1 rest) →
  map gw1 = m ∧
  gather_state_changes
    (get_gw_state (map gw1) (pool gw1, group gw1) (name gw1))
    (get_gw_state m (pool gw1, group gw1) (name gw1))
  = Some {| ana_info_states := [] |} ∧
  ∀ replies2,
    handle_nvmeof_gw_map gw1 m replies2 = ([], Returned gw1 replies2) ∧
    map (commit gw1 m) = m.
Proof.
  intros Hst Hrun.
  rewrite (handle_Returned _ _ _ _ _ _ _ Hst Hrun).
  cbn. rewrite Hst. split_and!; [done|apply gather_state_changes_same|].
  intros replies2. split; [|done].
  rewrite (handle_known _ _ st) by done. cbn. rewrite Hst.
  by rewrite (apply_state_changes_no_change _ _ _ _ _
                (gather_state_changes_same st)).
Qed.

(** C10.  Two runs of the handler by the same agent, whose last-applied maps
    agree on the agent's own entry and whose new maps agree on the agent's
    own entry, compute the same change-set, make the same remote calls in
    the same order on the same replies, and end the same way: no other entry
    of either map is looked at. *)
Theorem other_entries_do_not_interfere (gw1 gw2 : NVMeofGw) (m1 m2 : GW_MAP) :
  name gw1 = name gw2 → pool gw1 = pool gw2 → group gw1 = group gw2 →
  get_gw_state (map gw1) (pool gw1, group gw1) (name gw1)
  = get_gw_state (map gw2) (pool gw2, group gw2) (name gw2) →
  get_gw_state m1 (pool gw1, group gw1) (name gw1)
  = get_gw_state m2 (pool gw2, group gw2) (name gw2) →
  gather_state_changes
    (get_gw_state (map gw1) (pool gw1, group gw1) (name gw1))
    (get_gw_state m1 (pool gw1, group gw1) (name gw1))
  = gather_state_changes
      (get_gw_state (map gw2) (pool gw2, group gw2) (name gw2))
      (get_gw_state m2 (pool gw2, group gw2) (name gw2)) ∧
  ∀ replies,
    (handle_nvmeof_gw_map gw1 m1 replies).1
    = (handle_nvmeof_gw_map gw2 m2 replies).1 ∧
    outcome (handle_nvmeof_gw_map gw1 m1 replies).2
    = outcome (handle_nvmeof_gw_map gw2 m2 replies).2.
Proof.
  intros Hname Hpool Hgroup Hold Hnew. split; [by rewrite Hold, Hnew|].
  intros replies. unfold handle_nvmeof_gw_map. rewrite Hold, Hnew.
  destruct (get_gw_state (map gw2) _ _) as [old_state|].
  { apply apply_state_changes_frame. }
  destruct (get_gw_state m2 _ _) as [new_state|]; [|done].
  unfold bind.
  destruct (retry (set_group_id (group_id new_state)) replies)
    as [tr [[] rest| |]]; [|done..].
  destruct (apply_state_changes_frame gw1 gw2 m1 m2 None (Some new_state) rest)
    as [Htr Hout].
  destruct (apply_state_changes gw1 m1 None (Some new_state) rest),
           (apply_state_changes gw2 m2 None (Some new_state) rest).
  cbn in *. by subst.
Qed.

(** * Properties of the beacon *)

(** C6.  The beacon that [send_beacon] sends declares [GW_CREATED] when the
    last-applied map has no entry for the agent's identity, whether or not
    the inventory query succeeded; with an entry it declares [GW_AVAILABLE]
    when the query succeeded and [GW_UNAVAILABLE] when it failed. *)
Theorem beacon_availability (gw : NVMeofGw) (gw_subsystems : subsystems_info)
    (ok : bool) :
  ∃ m, send_beacon gw gw_subsystems ok
       = [get_subsystems gw_subsystems ok; send_mon_message m] ∧
    (get_gw_state (map gw) (pool gw, group gw) (name gw) = None →
     gw_availability m = GW_CREATED) ∧
    (is_Some (get_gw_state (map gw) (pool gw, group gw) (name gw)) →
     ok = true → gw_availability m = GW_AVAILABLE) ∧
    (is_Some (get_gw_state (map gw) (pool gw, group gw) (name gw)) →
     ok = false → gw_availability m = GW_UNAVAILABLE).
Proof.
  exists (beacon gw gw_subsystems ok). split; [done|]. unfold beacon. cbn.
  destruct (get_gw_state (map gw) (pool gw, group gw) (name gw)).
  - split_and!; [done|by intros _ ->..].
  - split_and!; [done|by intros [? [=]]..].
Qed.

(** C9.  A tick whose inventory query fails still runs to its end: the query
    is made once, a beacon with an empty subsystem list is sent for the
    agent's identity, and the next tick is scheduled. *)
Theorem failed_query_still_sends_beacon (mgr_tick_period : nat) (gw : NVMeofGw)
    (gw_subsystems : subsystems_info) :
  tick mgr_tick_period gw gw_subsystems false
  = [ get_subsystems gw_subsystems false;
      send_mon_message
        {| gw_id := name gw; gw_pool := pool gw; gw_group := group gw;
           subs := [];
           gw_availability :=
             match get_gw_state (map gw) (pool gw, group gw) (name gw) with
             | Some _ => GW_UNAVAILABLE
             | None => GW_CREATED
             end |};
      add_event_after mgr_tick_period ].
Proof.
  unfold tick, send_beacon, beacon. cbn.
  by destruct (get_gw_state (map gw) (pool gw, group gw) (name gw)).
Qed.

(** * Further properties *)

(** ** [get_gw_state] *)

(** X1.  A lookup sees one gateway of one group: the state stored for the
    gateway in its group is found again; replacing the table of another
    group, or the state of another gateway of the same group, changes
    nothing; and without the group, or without the gateway in it, nothing is
    found. *)
Theorem get_gw_state_local (m : GW_MAP) (group_key : GROUP_KEY) (gw_id : GW_ID_T) :
  (∀ gw_group st,
     get_gw_state (<[group_key := <[gw_id := st]> gw_group]> m) group_key gw_id
     = Some st) ∧
  (∀ other gw_group, other ≠ group_key →
     get_gw_state (<[other := gw_group]> m) group_key gw_id
     = get_gw_state m group_key gw_id) ∧
  (∀ gw_group other st, m !! group_key = Some gw_group → other ≠ gw_id →
     get_gw_state (<[group_key := <[other := st]> gw_group]> m) group_key gw_id
     = get_gw_state m group_key gw_id) ∧
  get_gw_state (delete group_key m) group_key gw_id = None ∧
  (∀ gw_group,
     get_gw_state (<[group_key := delete gw_id gw_group]> m) group_key gw_id
     = None).
Proof.
  unfold get_gw_state. split_and!.
  - intros gw_group st. by rewrite !lookup_insert_eq.
  - intros other gw_group Hne. by rewrite lookup_insert_ne.
  - intros gw_group other st Hg Hne.
    by rewrite lookup_insert_eq, Hg, lookup_insert_ne.
  - by rewrite lookup_delete_eq.
  - intros gw_group. by rewrite lookup_insert_eq, lookup_delete_eq.
Qed.

(** ** The beacon *)

(** X2.  When the inventory query succeeds the beacon lists the subsystems
    of the reply one for one and in order, each with its nqn, its namespaces
    (group id and nonce) and its listen addresses (address and service id) in
    order. *)
Theorem beacon_subsystems_pass_through (gw : NVMeofGw) (gw_subsystems : subsystems_info) :
  length (subs (beacon gw gw_subsystems true))
  = length (subsystems_info_subsystems gw_subsystems) ∧
  (∀ i sub,
     subsystems_info_subsystems gw_subsystems !! i = Some sub →
     ∃ bsub,
       subs (beacon gw gw_subsystems true) !! i = Some bsub ∧
       bsub_nqn bsub = subsystem_nqn sub ∧
       (λ bns, (bns_anagrpid bns, bns_nonce bns)) <$> bsub_namespaces bsub
       = (λ ns, (anagrpid ns, nonce ns)) <$> namespaces sub ∧
       (λ bls, (address bls, svcid bls)) <$> bsub_listeners bsub
       = (λ ls, (traddr ls, trsvcid ls)) <$> listen_addresses sub).
Proof.
  cbn. split.
  - by rewrite length_fmap.
  - intros i sub Hsub. exists (beacon_subsystem sub).
    rewrite list_lookup_fmap, Hsub. cbn. split_and!; [done..| |].
    + rewrite <-list_fmap_compose. by apply list_fmap_ext.
    + rewrite <-list_fmap_compose. by apply list_fmap_ext.
Qed.

(** X3.  Every listener of every beacon has the address family ["fake"],
    whatever the gateway reported. *)
Theorem beacon_listeners_fake_family (gw : NVMeofGw) (gw_subsystems : subsystems_info)
    (ok : bool) (bsub : BeaconSubsystem) (bls : BeaconListener) :
  bsub ∈ subs (beacon gw gw_subsystems ok) →
  bls ∈ bsub_listeners bsub →
  address_family bls = "fake".
Proof.
  cbn. destruct ok; [|by intros ?%elem_of_nil].
  intros (sub & -> & _)%list_elem_of_fmap. cbn.
  by intros (ls & -> & _)%list_elem_of_fmap.
Qed.

(** X4.  The beacon takes from the last-applied map only whether it has an
    entry for the agent: two agents of the same identity whose maps both have
    or both lack that entry send the same beacon for the same reply, whatever
    else the maps hold. *)
Theorem beacon_ignores_map_content (gw1 gw2 : NVMeofGw)
    (gw_subsystems : subsystems_info) (ok : bool) :
  name gw1 = name gw2 → pool gw1 = pool gw2 → group gw1 = group gw2 →
  (is_Some (get_gw_state (map gw1) (pool gw1, group gw1) (name gw1)) ↔
   is_Some (get_gw_state (map gw2) (pool gw2, group gw2) (name gw2))) →
  send_beacon gw1 gw_subsystems ok = send_beacon gw2 gw_subsystems ok.
Proof.
  intros Hname Hpool Hgroup Hsame. unfold send_beacon, beacon.
  rewrite Hname, Hpool, Hgroup in *.
  destruct (get_gw_state (map gw1) _ _) as [st1|],
           (get_gw_state (map gw2) _ _) as [st2|]; try done.
  - destruct Hsame as [Hsame _]. by destruct Hsame.
  - destruct Hsame as [_ Hsame]. by destruct Hsame.
Qed.

(** ** Shape of the change-set *)

Lemma StronglySorted_sublist {A : Type} (R : relation A) (k l : list A) :
  k `sublist_of` l → StronglySorted R l → StronglySorted R k.
Proof.
  induction 1 as [|x k l Hsub IH|x k l Hsub IH]; intros Hl; [done| |].
  - apply StronglySorted_inv in Hl as [Hl Hx]. constructor; [by apply IH|].
    apply Forall_forall. intros y Hy. rewrite Forall_forall in Hx.
    by apply Hx, (elem_of_sublist k).
  - apply StronglySorted_inv in Hl as [Hl _]. by apply IH.
Qed.

Lemma StronglySorted_lt_seq j n : StronglySorted lt (seq j n).
Proof.
  revert j. induction n as [|n IH]; intros j; cbn; constructor; [apply IH|].
  apply Forall_forall. intros k Hk%elem_of_seq. lia.
Qed.

Lemma Forall2_omap_sublist {A B C : Type} (ka : A → C) (kb : B → C)
    (l : list A) (turns : list (option B)) :
  Forall2 (λ x t, ∀ y, t = Some y → kb y = ka x) l turns →
  kb <$> omap id turns `sublist_of` ka <$> l.
Proof.
  induction 1 as [|x t l turns Hxt _ IH]; [constructor|].
  destruct t as [y|]; cbn.
  - rewrite (Hxt y eq_refl). by constructor.
  - by constructor.
Qed.

Lemma nqn_changes_batch got olds p nas :
  nqn_changes got olds p = Some (Some nas) →
  nqn nas = p.1 ∧ states nas ≠ [] ∧
  grp_id <$> states nas `sublist_of` seq 1 (length (ana_state p.2)).
Proof.
  intros (turns & HM & Hr)%nqn_changes_inv.
  case_decide as Hlen; [done|]. injection Hr as ->. cbn.
  split_and!; [done|by intros ?%(f_equal length)|].
  rewrite <-fmap_S_seq. apply Forall2_omap_sublist.
  apply mapM_Some_1 in HM. apply Forall2_same_length_lookup_2.
  - rewrite length_seq, <-(Forall2_length _ _ _ HM). by rewrite length_imap.
  - intros i j t [-> Hi]%lookup_seq Ht gs ->.
    destruct (Forall2_lookup_r _ _ _ _ _ HM Ht) as (e & He & Heq).
    rewrite list_lookup_imap in He.
    destruct (ana_state p.2 !! i) as [v|]; [|done]. cbn in He, Heq.
    injection He as <-. apply group_change_emits in Heq as [_ ->]. cbn. lia.
Qed.

Lemma gather_state_changes_batch old new ai nas :
  gather_state_changes old new = Some ai → nas ∈ ana_info_states ai →
  ∃ sub, subsystems_of new !! nqn nas = Some sub ∧
    nqn_changes (bool_decide (is_Some old)) (subsystems_of old) (nqn nas, sub)
    = Some (Some nas).
Proof.
  unfold gather_state_changes.
  destruct (mapM _ _) as [turns|] eqn:HM; [|done]. intros [= <-]. cbn.
  intros ([nq sub] & Hin & Hch)%(mapM_omap_elem _ _ _ _ HM).
  destruct (nqn_changes_batch _ _ _ _ Hch) as [Hnq _]. cbn in Hnq. subst nq.
  exists sub. by rewrite <-elem_of_in_order.
Qed.

(** X5.  No batch of a change-set is empty: a subsystem with no changed
    group, and a subsystem with no ana states at all, is left out. *)
Theorem change_set_no_empty_batch (old new : option GW_STATE_T) (ai : ana_info)
    (nas : nqn_ana_states) :
  gather_state_changes old new = Some ai →
  nas ∈ ana_info_states ai →
  states nas ≠ [] ∧
  ∃ sub, subsystems_of new !! nqn nas = Some sub ∧ ana_state sub ≠ [].
Proof.
  intros Hai Hnas.
  destruct (gather_state_changes_batch _ _ _ _ Hai Hnas) as (sub & Hsub & Hch).
  destruct (nqn_changes_batch _ _ _ _ Hch) as (_ & Hne & Hids). cbn in Hids.
  split; [done|]. exists sub. split; [done|]. intros Hnil.
  rewrite Hnil in Hids. cbn in Hids. apply sublist_nil_r in Hids.
  by destruct (states nas).
Qed.

(** X6.  The batches of a change-set are for different subsystems and come
    in ascending order of the nqn, the order in which the new state's
    subsystems are visited. *)
Theorem change_set_batches_ascending (old new : option GW_STATE_T) (ai : ana_info) :
  gather_state_changes old new = Some ai →
  NoDup (nqn <$> ana_info_states ai) ∧
  StronglySorted String.le (nqn <$> ana_info_states ai) ∧
  nqn <$> ana_info_states ai `sublist_of` (in_order (subsystems_of new)).*1.
Proof.
  unfold gather_state_changes.
  destruct (mapM _ _) as [turns|] eqn:HM; [|done]. intros [= <-]. cbn.
  assert (Hsub : nqn <$> omap id turns
                 `sublist_of` (in_order (subsystems_of new)).*1).
  { apply Forall2_omap_sublist. apply mapM_Some_1 in HM.
    eapply Forall2_impl; [exact HM|]. cbn. intros p t Hch nas ->.
    by destruct (nqn_changes_batch _ _ _ _ Hch). }
  split_and!; [|
    |done].
  - exact (sublist_NoDup _ _ (NoDup_fst_in_order _) Hsub).
  - eapply StronglySorted_sublist; [exact Hsub|].
    eapply StronglySorted_fmap; [|apply in_order_ascending]. done.
Qed.

(** X7.  Inside a batch the group ids are strictly increasing, so no group
    occurs twice, and each is between 1 and the length of the subsystem's
    sequence in the new state. *)
Theorem change_set_group_ids_increasing (old new : option GW_STATE_T)
    (ai : ana_info) (nas : nqn_ana_states) :
  gather_state_changes old new = Some ai →
  nas ∈ ana_info_states ai →
  StronglySorted lt (grp_id <$> states nas) ∧
  ∃ sub, subsystems_of new !! nqn nas = Some sub ∧
         ∀ gs, gs ∈ states nas → 1 ≤ grp_id gs ≤ length (ana_state sub).
Proof.
  intros Hai Hnas.
  destruct (gather_state_changes_batch _ _ _ _ Hai Hnas) as (sub & Hsub & Hch).
  destruct (nqn_changes_batch _ _ _ _ Hch) as (_ & _ & Hids). cbn in Hids.
  split.
  - eapply StronglySorted_sublist; [exact Hids|apply StronglySorted_lt_seq].
  - exists sub. split; [done|]. intros gs Hgs.
    assert (Hin : grp_id gs ∈ seq 1 (length (ana_state sub))).
    { eapply elem_of_sublist; [|exact Hids]. by apply list_elem_of_fmap_2. }
    apply elem_of_seq in Hin. lia.
Qed.

(** ** What the diff delivers and what it leaves out *)

Lemma omap_id_imap_Some {A B : Type} (h : nat → A → B) (l : list A) :
  omap id (imap (λ i v, Some (h i v)) l) = imap h l.
Proof.
  revert h. induction l as [|x l IH]; intros h; [done|].
  rewrite !imap_cons. cbn. f_equal. apply (IH (h ∘ S)).
Qed.

Lemma omap_id_fmap {A B : Type} (f : A → option B) (l : list A) :
  omap id (f <$> l) = omap f l.
Proof. induction l as [|x l IH]; [done|]. cbn. by rewrite IH. Qed.

Lemma nqn_changes_new_subsystem got (olds : gmap NQN_ID_T NqnState) p :
  olds !! p.1 = None → nqn_changes got olds p = Some (full_batch p).
Proof.
  intros Hnone. unfold nqn_changes, full_batch. rewrite Hnone.
  rewrite (mapM_imap_pointwise _
    (λ i v, Some {| grp_id := i + 1; state := exported_state v |})).
  - cbn. rewrite omap_id_imap_Some, length_imap.
    destruct (ana_state p.2); by repeat case_decide.
  - intros i v _. unfold group_change, no_state_change. by destruct got.
Qed.

(** X8.  Removals are silent.  When each subsystem of the new state is in
    the old state with a sequence that the new sequence is a prefix of
    (subsystems may have been removed, sequences may have been cut), the
    change-set is empty: the handler makes no call, whatever the replies
    would be, and commits the new map. *)
Theorem removals_are_silent (gw : NVMeofGw) (new_map : GW_MAP)
    (old_state new_state : GW_STATE_T) :
  get_gw_state (map gw) (pool gw, group gw) (name gw) = Some old_state →
  get_gw_state new_map (pool gw, group gw) (name gw) = Some new_state →
  (∀ nq new_sub, subsystems new_state !! nq = Some new_sub →
     ∃ old_sub, subsystems old_state !! nq = Some old_sub
                ∧ ana_state new_sub `prefix_of` ana_state old_sub) →
  gather_state_changes (Some old_state) (Some new_state)
  = Some {| ana_info_states := [] |} ∧
  ∀ replies,
    handle_nvmeof_gw_map gw new_map replies
    = ([], Returned (commit gw new_map) replies).
Proof.
  intros Hold Hnew Hpre.
  assert (Hnone : gather_state_changes (Some old_state) (Some new_state)
                  = Some {| ana_info_states := [] |}).
  { apply gather_state_changes_none. cbn. intros nq new_sub Hsub.
    destruct (Hpre nq new_sub Hsub) as (old_sub & Hosub & Hprefix).
    apply nqn_changes_none. cbn. intros i v Hv.
    apply group_change_same with old_sub; [done|].
    by apply (prefix_lookup_Some (ana_state new_sub)). }
  split; [done|]. intros replies.
  rewrite (handle_known _ _ _ _ Hold), Hnew.
  by apply apply_state_changes_no_change.
Qed.

(** X9.  Subsystems that the old state does not have are delivered whole.
    When no subsystem of the new state is in the old state (on first join
    there is no old state at all), the change-set is, in ascending order of
    the nqn, one batch for each subsystem with a non-empty sequence, holding
    the records of all its indices in order. *)
Theorem new_subsystems_delivered_whole (old new : option GW_STATE_T) :
  (∀ nq, is_Some (subsystems_of new !! nq) → subsystems_of old !! nq = None) →
  gather_state_changes old new
  = Some {| ana_info_states := omap full_batch (in_order (subsystems_of new)) |}.
Proof.
  intros Hnew. unfold gather_state_changes.
  rewrite (mapM_pointwise _ full_batch).
  - by rewrite omap_id_fmap.
  - intros [nq sub] Hin%elem_of_in_order.
    apply nqn_changes_new_subsystem. cbn. apply Hnew. by exists sub.
Qed.

(** X10.  The diff compares raw values, not exported states.  When the new
    state differs from the old one in one index of one subsystem and both
    the old and the new raw value are other than the optimized one, the two
    export as the same state and still one record, with [INACCESSIBLE], is
    delivered for that group. *)
Theorem raw_change_is_delivered (o n : GW_STATE_T) (nq : NQN_ID_T)
    (old_sub : NqnState) (i : nat)
    (old_v v : GW_EXPORTED_STATES_PER_AGROUP_E) :
  subsystems o !! nq = Some old_sub →
  ana_state old_sub !! i = Some old_v →
  v ≠ old_v →
  v ≠ GW_EXPORTED_OPTIMIZED_STATE → old_v ≠ GW_EXPORTED_OPTIMIZED_STATE →
  subsystems n
  = <[nq := {| ana_state := <[i := v]> (ana_state old_sub) |}]> (subsystems o) →
  exported_state old_v = exported_state v ∧
  gather_state_changes (Some o) (Some n)
  = Some {| ana_info_states :=
              [ {| nqn := nq;
                   states := [ {| grp_id := i + 1; state := INACCESSIBLE |} ] |} ] |}.
Proof.
  intros Hsub Hold Hne Hv Hov Hn.
  rewrite (gather_state_changes_one_index o n nq old_sub i old_v v) by done.
  unfold exported_state. by rewrite !decide_False.
Qed.

(** ** The calls of the handler *)

Lemma retry_events c replies e :
  e ∈ (retry c replies).1 → e = usleep 1000 ∨ ∃ ok, e = call c ok.
Proof.
  induction replies as [|[] replies IH]; cbn.
  - by intros ?%elem_of_nil.
  - intros ->%list_elem_of_singleton. eauto.
  - destruct (retry c replies) as [tr r]. cbn in *.
    rewrite !elem_of_cons. intros [->|[->|He]]; eauto.
Qed.

Lemma apply_state_changes_events gw new_map old new replies e :
  e ∈ (apply_state_changes gw new_map old new replies).1 →
  e = usleep 1000 ∨
  ∃ ok ai, gather_state_changes old new = Some ai ∧ ana_info_states ai ≠ []
           ∧ e = call (set_ana_state ai) ok.
Proof.
  destruct (gather_state_changes old new) as [ai|] eqn:Hai.
  - destruct (decide (ana_info_states ai = [])) as [Hnil|Hne].
    + destruct ai as [l]. cbn in Hnil. subst l.
      rewrite (apply_state_changes_no_change _ _ _ _ _ Hai).
      by intros ?%elem_of_nil.
    + rewrite (apply_state_changes_notify _ _ _ _ _ _ Hai Hne). intros He.
      assert (He' : e ∈ (retry (set_ana_state ai) replies).1).
      { by destruct (retry (set_ana_state ai) replies) as [tr [[] rest| |]]. }
      apply retry_events in He' as [->|[ok ->]]; [by left|].
      right. by exists ok, ai.
  - rewrite apply_state_changes_undefined by done. by intros ?%elem_of_nil.
Qed.

(** X11.  Every event of every run of the handler is a sleep of the fixed
    delay, a [set_group_id] call with the group id of the new entry, made
    only when the last-applied map has no entry for the agent, or a
    [set_ana_state] call with the computed change-set, made only when that
    change-set is not empty. *)
Theorem handler_calls_only (gw : NVMeofGw) (new_map : GW_MAP)
    (replies : list bool) (e : event) :
  e ∈ (handle_nvmeof_gw_map gw new_map replies).1 →
  e = usleep 1000 ∨
  (∃ ok new_state,
     get_gw_state (map gw) (pool gw, group gw) (name gw) = None ∧
     get_gw_state new_map (pool gw, group gw) (name gw) = Some new_state ∧
     e = call (set_group_id (group_id new_state)) ok) ∨
  (∃ ok ai,
     gather_state_changes
       (get_gw_state (map gw) (pool gw, group gw) (name gw))
       (get_gw_state new_map (pool gw, group gw) (name gw)) = Some ai ∧
     ana_info_states ai ≠ [] ∧
     e = call (set_ana_state ai) ok).
Proof.
  destruct (get_gw_state (map gw) (pool gw, group gw) (name gw))
    as [old_state|] eqn:Hold.
  { rewrite (handle_known _ _ _ _ Hold).
    intros [->|He]%apply_state_changes_events; eauto. }
  destruct (get_gw_state new_map (pool gw, group gw) (name gw))
    as [new_state|] eqn:Hnew.
  - rewrite (handle_first_join _ _ _ _ Hold Hnew). unfold bind.
    pose proof (retry_events (set_group_id (group_id new_state)) replies e)
      as Hretry.
    destruct (retry (set_group_id (group_id new_state)) replies)
      as [tr [[] rest| |]]; cbn in *.
    + pose proof (apply_state_changes_events gw new_map None (Some new_state)
                    rest e) as Happly.
      destruct (apply_state_changes gw new_map None (Some new_state) rest)
        as [tr' r']. cbn in *.
      intros [He|He]%elem_of_app.
      * destruct (Hretry He) as [->|[ok ->]]; [by left|]. right. left.
        by exists ok, new_state.
      * destruct (Happly He) as [->|?]; eauto.
    + intros He. destruct (Hretry He) as [->|[ok ->]]; [by left|].
      right. left. by exists ok, new_state.
    + intros He. destruct (Hretry He) as [->|[ok ->]]; [by left|].
      right. left. by exists ok, new_state.
  - unfold handle_nvmeof_gw_map. rewrite Hold, Hnew. by intros ?%elem_of_nil.
Qed.

(** X12.  A gateway that the last-applied map knows is never assigned a
    group again: no run makes a [set_group_id] call, even when the group id
    of its entry differs in the new map; and when the new entry has the
    subsystems of the old one, whatever its group id and availability, the
    run makes no call at all and commits the new map. *)
Theorem known_gateway_no_group_call (gw : NVMeofGw) (new_map : GW_MAP)
    (old_state : GW_STATE_T) :
  get_gw_state (map gw) (pool gw, group gw) (name gw) = Some old_state →
  (∀ replies id ok,
     call (set_group_id id) ok ∉ (handle_nvmeof_gw_map gw new_map replies).1) ∧
  (∀ new_state replies,
     get_gw_state new_map (pool gw, group gw) (name gw) = Some new_state →
     subsystems new_state = subsystems old_state →
     handle_nvmeof_gw_map gw new_map replies
     = ([], Returned (commit gw new_map) replies)).
Proof.
  intros Hold. split.
  - intros replies id ok. rewrite (handle_known _ _ _ _ Hold).
    by intros [?|(? & ? & _ & _ & ?)]%apply_state_changes_events.
  - intros new_state replies Hnew Hsame.
    rewrite (handle_known _ _ _ _ Hold), Hnew.
    apply apply_state_changes_no_change, gather_state_changes_none. cbn.
    intros nq sub Hsub. apply nqn_changes_same. by rewrite <-Hsame.
Qed.

(** ** The handler and the next beacon *)

Lemma handle_no_new_entry gw new_map replies :
  get_gw_state new_map (pool gw, group gw) (name gw) = None →
  handle_nvmeof_gw_map gw new_map replies
  = ([], Returned
           (match get_gw_state (map gw) (pool gw, group gw) (name gw) with
            | Some _ => commit gw new_map
            | None => gw
            end) replies).
Proof.
  intros Hnew.
  destruct (get_gw_state (map gw) (pool gw, group gw) (name gw))
    as [old_state|] eqn:Hold.
  - rewrite (handle_known _ _ _ _ Hold), Hnew.
    apply apply_state_changes_no_change, gather_state_changes_removed.
  - unfold handle_nvmeof_gw_map. by rewrite Hold, Hnew.
Qed.

(** X13.  Once a run of the handler on a map with an entry for the agent
    has returned, the beacons of the agent no longer declare [GW_CREATED]:
    they declare [GW_AVAILABLE] when the inventory query succeeds and
    [GW_UNAVAILABLE] when it fails, under the identity the agent had before
    the run. *)
Theorem beacon_after_join (gw : NVMeofGw) (new_map : GW_MAP)
    (new_state : GW_STATE_T) (replies : list bool) (tr : list event)
    (gw' : NVMeofGw) (rest : list bool) :
  get_gw_state new_map (pool gw, group gw) (name gw) = Some new_state →
  handle_nvmeof_gw_map gw new_map replies = (tr, Returned gw' rest) →
  ∀ gw_subsystems ok,
    gw_availability (beacon gw' gw_subsystems ok)
    = (if ok then GW_AVAILABLE else GW_UNAVAILABLE) ∧
    gw_id (beacon gw' gw_subsystems ok) = name gw ∧
    gw_pool (beacon gw' gw_subsystems ok) = pool gw ∧
    gw_group (beacon gw' gw_subsystems ok) = group gw.
Proof.
  intros Hnew Hrun gw_subsystems ok.
  rewrite (handle_Returned _ _ _ _ _ _ _ Hnew Hrun).
  unfold beacon. cbn. by rewrite Hnew.
Qed.

(** X14.  A gateway dropped from the map starts over.  Once a run on a map
    without an entry for the agent has returned, the beacons declare
    [GW_CREATED] whatever the inventory query gives, and the next map with an
    entry for the agent is handled as a first join: the run calls
    [set_group_id] with the new group id and repeats it until it succeeds. *)
Theorem dropped_gateway_starts_over (gw : NVMeofGw) (new_map : GW_MAP)
    (replies : list bool) (tr : list event) (gw' : NVMeofGw) (rest : list bool) :
  get_gw_state new_map (pool gw, group gw) (name gw) = None →
  handle_nvmeof_gw_map gw new_map replies = (tr, Returned gw' rest) →
  (∀ gw_subsystems ok,
     gw_availability (beacon gw' gw_subsystems ok) = GW_CREATED) ∧
  (∀ next_map next_state k,
     get_gw_state next_map (pool gw, group gw) (name gw) = Some next_state →
     handle_nvmeof_gw_map gw' next_map (replicate k false)
     = (failed_attempts (set_group_id (group_id next_state)) k,
        Blocked (set_group_id (group_id next_state))) ∧
     ∀ rest', ∃ tr' r',
       handle_nvmeof_gw_map gw' next_map (replicate k false ++ true :: rest')
       = (failed_attempts (set_group_id (group_id next_state)) k
          ++ call (set_group_id (group_id next_state)) true :: tr', r')).
Proof.
  intros Hnew Hrun. rewrite (handle_no_new_entry _ _ _ Hnew) in Hrun.
  assert (Hnone : get_gw_state (map gw') (pool gw', group gw') (name gw') = None
                  ∧ pool gw' = pool gw ∧ group gw' = group gw
                  ∧ name gw' = name gw).
  { destruct (get_gw_state (map gw) (pool gw, group gw) (name gw)) eqn:Hold;
      injection Hrun as _ <- _; cbn; by rewrite ?Hnew, ?Hold. }
  destruct Hnone as (Hnone & Hpool & Hgroup & Hname). split.
  - intros gw_subsystems ok. unfold beacon. cbn. by rewrite Hnone.
  - intros next_map next_state k Hnext.
    rewrite <-Hpool, <-Hgroup, <-Hname in Hnext. split.
    + rewrite (handle_first_join _ _ _ _ Hnone Hnext). unfold bind.
      by rewrite retry_blocked.
    + intros rest'. rewrite (handle_first_join _ _ _ _ Hnone Hnext).
      unfold bind. rewrite retry_succeeds.
      destruct (apply_state_changes gw' next_map None (Some next_state) rest')
        as [tr' r']. exists tr', r'. by rewrite <-app_assoc.
Qed.

(** ** [ms_dispatch2] *)

(** X15.  [ms_dispatch2] never reports a message as handled, a map message
    included; a message of another type leaves the agent as it was, makes no
    call and uses no reply; a map message runs the handler on its map. *)
Theorem ms_dispatch2_never_handled (gw : NVMeofGw) (m : Message) :
  (∀ replies tr gw' handled rest,
     ms_dispatch2 gw m replies = (tr, Returned (gw', handled) rest) →
     handled = false) ∧
  (get_type m ≠ MSG_MNVMEOF_GW_MAP →
   ∀ replies, ms_dispatch2 gw m replies = ([], Returned (gw, false) replies)) ∧
  (get_type m = MSG_MNVMEOF_GW_MAP →
   ∀ replies,
     (ms_dispatch2 gw m replies).1
     = (handle_nvmeof_gw_map gw (get_map m) replies).1 ∧
     outcome (ms_dispatch2 gw m replies).2
     = outcome (handle_nvmeof_gw_map gw (get_map m) replies).2 ∧
     ∀ tr gw' rest,
       handle_nvmeof_gw_map gw (get_map m) replies = (tr, Returned gw' rest) →
       ms_dispatch2 gw m replies = (tr, Returned (gw', false) rest)).
Proof.
  split_and!.
  - intros replies tr gw' handled rest.
    intros (tr1 & a & rest1 & tr2 & _ & [= _ _ <- _] & _)%bind_Returned. done.
  - intros Hne replies. unfold ms_dispatch2, bind.
    by rewrite decide_False.
  - intros Heq replies. unfold ms_dispatch2, bind. rewrite decide_True by done.
    destruct (handle_nvmeof_gw_map gw (get_map m) replies)
      as [tr [gw' rest| |]]; cbn; rewrite ?app_nil_r; split_and!; try done.
    by intros ? ? ? [= <- <- <-].
Qed.

(** ** [init] *)

Local Ltac not_among :=
  let Hin := fresh "Hin" in
  intros Hin;
  repeat (apply elem_of_cons in Hin as [Hin|Hin]; [discriminate Hin|]);
  by apply elem_of_nil in Hin.

Local Ltac init_cases H :=
  unfold init in H; repeat case_decide; try discriminate H;
  injection H as <- <-.

(** X16.  [init] stops at an assertion, before any call, exactly when the
    gateway name, the pool, the gateway address or the monitor address is
    empty or a server key, server certificate or client certificate is
    given; the group may be empty.  Otherwise it returns -1 when
    [build_initial_monmap] fails, whatever its code, the code of [monc.init]
    or of [monc.authenticate] when that one fails, and 0 only when all three
    succeed. *)
Theorem init_return_code (mgr_tick_period : nat) (gw : NVMeofGw)
    (opts : NVMeofGwOptions) (build_initial_monmap_r init_r authenticate_r : Z)
    (gw_subsystems : subsystems_info) (ok : bool) :
  (init mgr_tick_period gw opts build_initial_monmap_r init_r authenticate_r
     gw_subsystems ok = Aborted
   ↔ name gw = "" ∨ pool gw = "" ∨ gateway_address opts = ""
     ∨ monitor_address opts = "" ∨ server_key opts ≠ ""
     ∨ server_cert opts ≠ "" ∨ client_cert opts ≠ "") ∧
  (∀ r calls,
     init mgr_tick_period gw opts build_initial_monmap_r init_r authenticate_r
       gw_subsystems ok = Exited r calls →
     ((build_initial_monmap_r < 0)%Z → r = (-1)%Z) ∧
     ((0 ≤ build_initial_monmap_r)%Z → (init_r < 0)%Z → r = init_r) ∧
     ((0 ≤ build_initial_monmap_r)%Z → (0 ≤ init_r)%Z →
      (authenticate_r < 0)%Z → r = authenticate_r) ∧
     (r = 0%Z ↔ (0 ≤ build_initial_monmap_r)%Z ∧ (0 ≤ init_r)%Z
                ∧ (0 ≤ authenticate_r)%Z) ∧
     (r ≤ 0)%Z).
Proof.
  split.
  - unfold init. split.
    + intros Hrun.
      destruct (decide (name gw = "")); [by eauto 10|].
      destruct (decide (pool gw = "")); [by eauto 10|].
      destruct (decide (gateway_address opts = "")); [by eauto 10|].
      destruct (decide (monitor_address opts = "")); [by eauto 10|].
      destruct (decide (server_key opts = "")); [|by eauto 10].
      destruct (decide (server_cert opts = "")); [|by eauto 10].
      destruct (decide (client_cert opts = "")); [|by eauto 10].
      rewrite decide_True, decide_True in Hrun by done.
      by repeat case_decide.
    + intros Hbad. case_decide as Hreq; [|done]. case_decide as Htls; [|done].
      destruct Hreq as (? & ? & ? & ?), Htls as (? & ? & ?).
      by destruct Hbad as [?|[?|[?|[?|[?|[?|?]]]]]].
  - intros r calls Hrun. init_cases Hrun; split_and!; try lia; try done.
Qed.

(** X17.  When [init] returns a code other than 0 it has sent no beacon, has
    not started the timer, and its last two calls shut the messenger down
    and wait for it; [monc.shutdown] is among its calls exactly when
    [build_initial_monmap] had succeeded, and then it comes just before the
    messenger is shut down. *)
Theorem init_failure_cleanup (mgr_tick_period : nat) (gw : NVMeofGw)
    (opts : NVMeofGwOptions) (build_initial_monmap_r init_r authenticate_r : Z)
    (gw_subsystems : subsystems_info) (ok : bool) (r : Z) (calls : list init_call) :
  init mgr_tick_period gw opts build_initial_monmap_r init_r authenticate_r
    gw_subsystems ok = Exited r calls →
  r ≠ 0%Z →
  (∀ e, run e ∉ calls) ∧ (timer_init ∉ calls) ∧
  (∃ pre, calls = pre ++ [client_messenger_shutdown; client_messenger_wait]
          ∧ (client_messenger_shutdown ∉ pre)
          ∧ (monc_shutdown ∈ calls →
             ∃ pre', pre = pre' ++ [monc_shutdown])) ∧
  (monc_shutdown ∈ calls ↔ (0 ≤ build_initial_monmap_r)%Z).
Proof.
  intros Hrun Hr. init_cases Hrun; [| | |done]; cbn.
  - split_and!; [intros e; not_among|not_among| |].
    + eexists (_ :: _ :: _ :: _ :: _ :: _ :: _ :: _ :: [_]).
      split_and!; [reflexivity|not_among|].
      intros Hin. exfalso. revert Hin. not_among.
    + split; [not_among|lia].
  - split_and!; [intros e; not_among|not_among| |].
    + eexists (_ :: _ :: _ :: _ :: _ :: _ :: _ :: _ :: _ :: _ :: _ :: _ :: _
               :: _ :: _ :: [_]).
      split_and!; [reflexivity|not_among|].
      intros _. by eexists (_ :: _ :: _ :: _ :: _ :: _ :: _ :: _ :: _ :: _ :: _
                            :: _ :: _ :: _ :: [_]).
    + split; [lia|]. intros _. do 15 right. left.
  - split_and!; [intros e; not_among|not_among| |].
    + eexists (_ :: _ :: _ :: _ :: _ :: _ :: _ :: _ :: _ :: _ :: _ :: _ :: _
               :: _ :: _ :: _ :: [_]).
      split_and!; [reflexivity|not_among|].
      intros _. by eexists (_ :: _ :: _ :: _ :: _ :: _ :: _ :: _ :: _ :: _ :: _
                            :: _ :: _ :: _ :: _ :: [_]).
    + split; [lia|]. intros _. do 16 right. left.
Qed.

(** X18.  When [init] returns 0 it has shut nothing down, has started the
    timer and then run one tick: one inventory query, one beacon and the
    scheduling of the next tick are its last calls.  On a fresh agent, whose
    last-applied map is empty, that first beacon declares [GW_CREATED] under
    the agent's identity, whether or not the query succeeded. *)
Theorem init_success_first_beacon (mgr_tick_period : nat) (gw : NVMeofGw)
    (opts : NVMeofGwOptions) (build_initial_monmap_r init_r authenticate_r : Z)
    (gw_subsystems : subsystems_info) (ok : bool) (calls : list init_call) :
  init mgr_tick_period gw opts build_initial_monmap_r init_r authenticate_r
    gw_subsystems ok = Exited 0 calls →
  (client_messenger_shutdown ∉ calls) ∧ (monc_shutdown ∉ calls) ∧
  ∃ pre m,
    calls = pre ++ [ timer_init; run (get_subsystems gw_subsystems ok);
                     run (send_mon_message m);
                     run (add_event_after mgr_tick_period) ] ∧
    (∀ e, run e ∉ pre) ∧
    m = beacon gw gw_subsystems ok ∧
    (map gw = ∅ →
     gw_availability m = GW_CREATED ∧ gw_id m = name gw ∧
     gw_pool m = pool gw ∧ gw_group m = group gw).
Proof.
  intros Hrun. unfold init in Hrun.
  repeat case_decide; try discriminate Hrun;
    try (injection Hrun as Hr _; lia).
  injection Hrun as <-. cbn. split_and!; [not_among..|].
  eexists (_ :: _ :: _ :: _ :: _ :: _ :: _ :: _ :: _ :: _ :: _ :: _ :: _ :: _
           :: _ :: _ :: _ :: _ :: _ :: _ :: _ :: [_]), _.
  split_and!; [reflexivity|intros e; not_among|reflexivity|].
  intros Hmap. unfold beacon, get_gw_state. cbn. by rewrite Hmap, lookup_empty.
Qed.

(** ** Delivery of the change-set *)

(** X19.  For a gateway that the last-applied map knows, a non-empty
    change-set is delivered by [set_ana_state] calls that all carry the whole
    change-set: after each failure the handler sleeps the fixed delay and
    calls again, however many failures there are, and it commits the new map
    after the first success; while every reply is a failure it stays in the
    loop and commits nothing. *)
Theorem delivery_retried_until_acknowledged (gw : NVMeofGw) (new_map : GW_MAP)
    (old_state : GW_STATE_T) (ai : ana_info) :
  get_gw_state (map gw) (pool gw, group gw) (name gw) = Some old_state →
  gather_state_changes (Some old_state)
    (get_gw_state new_map (pool gw, group gw) (name gw)) = Some ai →
  ana_info_states ai ≠ [] →
  (∀ k, handle_nvmeof_gw_map gw new_map (replicate k false)
        = (failed_attempts (set_ana_state ai) k, Blocked (set_ana_state ai))) ∧
  (∀ k rest,
     handle_nvmeof_gw_map gw new_map (replicate k false ++ true :: rest)
     = (failed_attempts (set_ana_state ai) k ++ [call (set_ana_state ai) true],
        Returned (commit gw new_map) rest)).
Proof.
  intros Hold Hai Hne. split.
  - intros k. rewrite (handle_known _ _ _ _ Hold).
    by rewrite (apply_state_changes_notify _ _ _ _ _ _ Hai Hne), retry_blocked.
  - intros k rest. rewrite (handle_known _ _ _ _ Hold).
    by rewrite (apply_state_changes_notify _ _ _ _ _ _ Hai Hne), retry_succeeds.
Qed.

Lemma apply_state_changes_acknowledged gw new_map old new ai replies tr gw' rest :
  gather_state_changes old new = Some ai → ana_info_states ai ≠ [] →
  apply_state_changes gw new_map old new replies = (tr, Returned gw' rest) →
  ∃ k, tr = failed_attempts (set_ana_state ai) k ++ [call (set_ana_state ai) true].
Proof.
  intros Hai Hne. rewrite (apply_state_changes_notify _ _ _ _ _ _ Hai Hne).
  destruct (replies_cases replies) as [[k ->]|(k & rest' & ->)].
  - by rewrite retry_blocked.
  - rewrite retry_succeeds. intros [= <- _ _]. by exists k.
Qed.

(** X20.  The last-applied map moves on only after the gateway has taken
    the change-set: in every run that returns with a non-empty change-set the
    last event is the successful [set_ana_state] call with that change-set,
    and every [set_ana_state] call before it failed. *)
Theorem commit_only_after_delivery (gw : NVMeofGw) (new_map : GW_MAP)
    (ai : ana_info) (replies : list bool) (tr : list event) (gw' : NVMeofGw)
    (rest : list bool) :
  gather_state_changes
    (get_gw_state (map gw) (pool gw, group gw) (name gw))
    (get_gw_state new_map (pool gw, group gw) (name gw)) = Some ai →
  ana_info_states ai ≠ [] →
  handle_nvmeof_gw_map gw new_map replies = (tr, Returned gw' rest) →
  ∃ pre k,
    tr = pre ++ failed_attempts (set_ana_state ai) k
             ++ [call (set_ana_state ai) true] ∧
    (∀ ai' ok, call (set_ana_state ai') ok ∉ pre) ∧
    map gw' = new_map.
Proof.
  intros Hai Hne Hrun.
  destruct (get_gw_state (map gw) (pool gw, group gw) (name gw))
    as [old_state|] eqn:Hold.
  - rewrite (handle_known _ _ _ _ Hold) in Hrun.
    destruct (apply_state_changes_acknowledged _ _ _ _ _ _ _ _ _ Hai Hne Hrun)
      as [k ->].
    apply apply_state_changes_Returned in Hrun as ->.
    exists [], k. split_and!; [done| |done]. intros ai' ok. apply not_elem_of_nil.
  - destruct (get_gw_state new_map (pool gw, group gw) (name gw))
      as [new_state|] eqn:Hnew.
    + rewrite (handle_first_join _ _ _ _ Hold Hnew) in Hrun.
      apply bind_Returned in Hrun as (tr1 & [] & rest1 & tr2 & Hretry & Hrun & ->).
      destruct (apply_state_changes_acknowledged _ _ _ _ _ _ _ _ _ Hai Hne Hrun)
        as [k ->].
      apply apply_state_changes_Returned in Hrun as ->.
      exists tr1, k. split_and!; [done| |done]. intros ai' ok Hin.
      assert (Hin' : call (set_ana_state ai') ok
                     ∈ (retry (set_group_id (group_id new_state)) replies).1)
        by by rewrite Hretry.
      by apply retry_events in Hin' as [?|[? ?]].
    + rewrite gather_state_changes_removed in Hai. injection Hai as <-. done.
Qed.

End Gateway.

(** * The properties on the sample inputs *)

(** C1: with an entry in the last-applied map and none in the new map, the
    handler replaces the last-applied map. *)
Lemma no_new_entry_map_replaced :
  get_gw_state ∅ ("pool-A", "group-1") "g1" = None ∧
  ∃ gw',
    handle_nvmeof_gw_map 0 (sample_gw (sample_map (sample_state [0%Z; 1%Z]))) ∅ []
    = ([], Returned gw' []) ∧
    map gw' ≠ map (sample_gw (sample_map (sample_state [0%Z; 1%Z]))).
Proof.
  split; [reflexivity|].
  exists (commit (sample_gw (sample_map (sample_state [0%Z; 1%Z]))) ∅).
  split; [vm_compute; reflexivity|]. cbn. intros Heq.
  apply (f_equal (λ m, get_gw_state m ("pool-A", "group-1") "g1")) in Heq.
  vm_compute in Heq. discriminate.
Qed.

Lemma no_new_entry_no_call_witness :
  get_gw_state ∅ ("pool-A", "group-1") "g1" = None ∧
  handle_nvmeof_gw_map 0 (sample_gw (sample_map (sample_state [0%Z; 1%Z]))) ∅ [true]
  = ([], Returned (commit (sample_gw (sample_map (sample_state [0%Z; 1%Z]))) ∅)
           [true]).
Proof.
  split; [reflexivity|].
  apply (no_new_entry_no_call 0
           (sample_gw (sample_map (sample_state [0%Z; 1%Z]))) ∅ [true]).
  - reflexivity.
  - vm_compute. eauto.
Defined.

(** C2: the old sequence of [nqn1] is empty and the new one has index 0, so
    the old state does not hold the new value at index 0; yet no change-set
    with a record for that index is computed. *)
Lemma change_record_missing_when_old_shorter :
  subsystems (sample_state [0%Z]) !! "nqn1" = Some {| ana_state := [0%Z] |} ∧
  (¬ ∃ o old_sub, Some (sample_state []) = Some o
                  ∧ subsystems o !! "nqn1" = Some old_sub
                  ∧ ana_state old_sub !! 0 = Some 0%Z) ∧
  (¬ ∃ ai, gather_state_changes 0 (Some (sample_state [])) (Some (sample_state [0%Z]))
           = Some ai
           ∧ emitted ai "nqn1" {| grp_id := 1; state := exported_state 0 0 |}).
Proof.
  split_and!.
  - reflexivity.
  - intros (o & old_sub & [= <-] & Hsub & Hv). vm_compute in Hsub.
    injection Hsub as <-. discriminate.
  - intros (ai & Hai & _). vm_compute in Hai. discriminate.
Qed.

Lemma change_record_emitted_iff_witness :
  ∃ ai, gather_state_changes 0 (Some (sample_state [0%Z; 1%Z]))
          (Some (sample_state [0%Z; 0%Z])) = Some ai ∧
        ana_info_states ai
        = [ {| nqn := "nqn1";
               states := [ {| grp_id := 2; state := OPTIMIZED |} ] |} ].
Proof.
  destruct (change_record_emitted_iff 0 (Some (sample_state [0%Z; 1%Z]))
              (sample_state [0%Z; 0%Z])) as (ai & Hai & _ & Hone & _).
  { apply (proj1 (gather_state_changes_is_Some 0 _ _)). vm_compute. eauto. }
  exists ai. split; [exact Hai|].
  apply (Hone (sample_state [0%Z; 1%Z]) "nqn1" {| ana_state := [0%Z; 1%Z] |}
              1 1%Z 0%Z); [reflexivity..|discriminate|].
  vm_compute. reflexivity.
Defined.

(** C3: the old sequence of [nqn1] is empty, the new one has one entry, and
    the diff reads index 0 of the old sequence. *)
Lemma old_read_out_of_bounds :
  get_gw_state (sample_map (sample_state [])) ("pool-A", "group-1") "g1"
  = Some (sample_state []) ∧
  get_gw_state (sample_map (sample_state [0%Z])) ("pool-A", "group-1") "g1"
  = Some (sample_state [0%Z]) ∧
  no_state_change true (subsystems (sample_state []) !! "nqn1") 0 0%Z = None ∧
  gather_state_changes 0 (Some (sample_state [])) (Some (sample_state [0%Z]))
  = None ∧
  handle_nvmeof_gw_map 0 (sample_gw (sample_map (sample_state [])))
    (sample_map (sample_state [0%Z])) [true]
  = ([], Undefined).
Proof. split_and!; vm_compute; reflexivity. Qed.

Lemma old_sequence_reads_in_bounds_witness :
  is_Some (gather_state_changes 0 (Some (sample_state [0%Z; 1%Z]))
             (Some (sample_state [1%Z]))) ∧
  (handle_nvmeof_gw_map 0 (sample_gw (sample_map (sample_state [0%Z; 1%Z])))
     (sample_map (sample_state [1%Z])) [true]).2 ≠ Undefined.
Proof.
  destruct (old_sequence_reads_in_bounds 0
              (sample_gw (sample_map (sample_state [0%Z; 1%Z])))
              (sample_map (sample_state [1%Z]))
              (Some (sample_state [0%Z; 1%Z])) (Some (sample_state [1%Z])))
    as (_ & Hdef & Hrun).
  - vm_compute. reflexivity.
  - vm_compute. reflexivity.
  - apply (proj1 (gather_state_changes_is_Some 0 _ _)). vm_compute. eauto.
  - split; [exact Hdef|apply Hrun].
Defined.

(** The first delivery of a map to [g1], with every call answered
    positively: [set_group_id 3] once, then one [set_ana_state] with the batch
    of [nqn1] (group 1 optimized, group 2 inaccessible), then the commit. *)
Example first_delivery :
  handle_nvmeof_gw_map 0 (sample_gw ∅) (sample_map (sample_state [0%Z; 1%Z]))
    [true; true]
  = ([ call (set_group_id 3) true;
       call (set_ana_state
               {| ana_info_states :=
                    [ {| nqn := "nqn1";
                         states := [ {| grp_id := 1; state := OPTIMIZED |};
                                     {| grp_id := 2; state := INACCESSIBLE |} ] |} ] |})
            true ],
     Returned {| name := "g1"; pool := "pool-A"; group := "group-1";
                 map := sample_map (sample_state [0%Z; 1%Z]) |} []).
Proof. vm_compute. reflexivity. Qed.

(** C4 on the first delivery of a map to [g1]: one failed [set_group_id],
    the successful one, then one [set_ana_state] with the batch of [nqn1]. *)
Lemma first_join_gating_witness :
  handle_nvmeof_gw_map 0 (sample_gw ∅) (sample_map (sample_state [0%Z; 1%Z]))
    [false; true; true]
  = ([ call (set_group_id 3) false; usleep 1000; call (set_group_id 3) true;
       call (set_ana_state
               {| ana_info_states :=
                    [ {| nqn := "nqn1";
                         states := [ {| grp_id := 1; state := OPTIMIZED |};
                                     {| grp_id := 2; state := INACCESSIBLE |} ] |} ] |})
            true ],
     Returned (commit (sample_gw ∅) (sample_map (sample_state [0%Z; 1%Z]))) []).
Proof.
  destruct (first_join_gating 0 (sample_gw ∅)
              (sample_map (sample_state [0%Z; 1%Z])) (sample_state [0%Z; 1%Z]))
    as (ai & Hai & _ & _ & Hrun & _).
  - reflexivity.
  - vm_compute. reflexivity.
  - vm_compute in Hai. injection Hai as <-. apply (Hrun 1 0 []). discriminate.
Defined.

Lemma exported_state_collapse_witness :
  ∃ sub i raw,
    subsystems_of (Some (sample_state [0%Z; 1%Z])) !! "nqn1" = Some sub ∧
    ana_state sub !! i = Some raw ∧
    grp_id {| grp_id := 2; state := INACCESSIBLE |} = i + 1 ∧
    (state {| grp_id := 2; state := INACCESSIBLE |} = OPTIMIZED ↔ raw = 0%Z) ∧
    (state {| grp_id := 2; state := INACCESSIBLE |} = INACCESSIBLE ↔ raw ≠ 0%Z).
Proof.
  apply (proj2 (exported_state_collapse 0) None
           (Some (sample_state [0%Z; 1%Z]))
           {| ana_info_states :=
                [ {| nqn := "nqn1";
                     states := [ {| grp_id := 1; state := OPTIMIZED |};
                                 {| grp_id := 2; state := INACCESSIBLE |} ] |} ] |}
           "nqn1").
  - vm_compute. reflexivity.
  - eexists. split; [left|]. split; [reflexivity|]. right. left.
Defined.

Lemma beacon_availability_witness :
  ∃ m, send_beacon (sample_gw (sample_map (sample_state [0%Z; 1%Z])))
         sample_subsystems_info true
       = [get_subsystems sample_subsystems_info true; send_mon_message m] ∧
       gw_availability m = GW_AVAILABLE.
Proof.
  destruct (beacon_availability (sample_gw (sample_map (sample_state [0%Z; 1%Z])))
              sample_subsystems_info true) as (m & Hm & _ & Hav & _).
  exists m. split; [exact Hm|]. apply Hav; [|reflexivity]. vm_compute. eauto.
Defined.

Lemma commit_replaces_map_witness :
  ∃ tr rest,
    handle_nvmeof_gw_map 0 (sample_gw (sample_map (sample_state [0%Z; 1%Z])))
      (sample_map_with_peers (sample_state [1%Z; 1%Z])) [true; false; true]
    = (tr, Returned (commit (sample_gw (sample_map (sample_state [0%Z; 1%Z])))
                       (sample_map_with_peers (sample_state [1%Z; 1%Z]))) rest).
Proof.
  apply (proj2 (commit_replaces_map 0
                  (sample_gw (sample_map (sample_state [0%Z; 1%Z])))
                  (sample_map_with_peers (sample_state [1%Z; 1%Z]))
                  (sample_state [1%Z; 1%Z]) ltac:(vm_compute; reflexivity))).
  - apply (proj1 (gather_state_changes_is_Some 0 _ _)). vm_compute. eauto.
  - vm_compute. lia.
Defined.

Lemma reconcile_same_map_twice_witness :
  handle_nvmeof_gw_map 0
    (commit (sample_gw ∅) (sample_map (sample_state [0%Z; 1%Z])))
    (sample_map (sample_state [0%Z; 1%Z])) [false; false]
  = ([], Returned (commit (sample_gw ∅) (sample_map (sample_state [0%Z; 1%Z])))
           [false; false]).
Proof.
  destruct (reconcile_same_map_twice 0 (sample_gw ∅)
              (sample_map (sample_state [0%Z; 1%Z])) (sample_state [0%Z; 1%Z])
              [true; true]
              [ call (set_group_id 3) true;
                call (set_ana_state
                  {| ana_info_states :=
                       [ {| nqn := "nqn1";
                            states := [ {| grp_id := 1; state := OPTIMIZED |};
                                        {| grp_id := 2; state := INACCESSIBLE |} ] |} ] |})
                  true ]
              (commit (sample_gw ∅) (sample_map (sample_state [0%Z; 1%Z]))) [])
    as (_ & _ & Hagain).
  - vm_compute. reflexivity.
  - vm_compute. reflexivity.
  - apply Hagain.
Defined.

Lemma other_entries_do_not_interfere_witness :
  (handle_nvmeof_gw_map 0 (sample_gw (sample_map (sample_state [0%Z; 1%Z])))
     (sample_map (sample_state [1%Z; 1%Z])) [false; true]).1
  = (handle_nvmeof_gw_map 0
       (sample_gw (sample_map_with_peers (sample_state [0%Z; 1%Z])))
       (sample_map_with_peers (sample_state [1%Z; 1%Z])) [false; true]).1.
Proof.
  apply (other_entries_do_not_interfere 0
           (sample_gw (sample_map (sample_state [0%Z; 1%Z])))
           (sample_gw (sample_map_with_peers (sample_state [0%Z; 1%Z])))
           (sample_map (sample_state [1%Z; 1%Z]))
           (sample_map_with_peers (sample_state [1%Z; 1%Z])));
    try reflexivity; vm_compute; reflexivity.
Defined.

(** * The further properties on the sample inputs *)

Lemma get_gw_state_local_witness :
  get_gw_state
    (<[("pool-B", "group-1") := ∅]> (sample_map (sample_state [0%Z])))
    ("pool-A", "group-1") "g1"
  = get_gw_state (sample_map (sample_state [0%Z])) ("pool-A", "group-1") "g1".
Proof.
  apply (proj1 (proj2 (get_gw_state_local (sample_map (sample_state [0%Z]))
                         ("pool-A", "group-1") "g1"))).
  discriminate.
Defined.

Lemma beacon_subsystems_pass_through_witness :
  ∃ bsub,
    subs (beacon (sample_gw ∅) sample_subsystems_info true) !! 0 = Some bsub ∧
    bsub_nqn bsub = "nqn1" ∧
    (λ bns, (bns_anagrpid bns, bns_nonce bns)) <$> bsub_namespaces bsub
    = [(1, "n")] ∧
    (λ bls, (address bls, svcid bls)) <$> bsub_listeners bsub
    = [("10.0.0.1", "4420")].
Proof.
  apply (proj2 (beacon_subsystems_pass_through (sample_gw ∅)
                  sample_subsystems_info) 0
           {| subsystem_nqn := "nqn1";
              namespaces := [ {| anagrpid := 1; nonce := "n" |} ];
              listen_addresses :=
                [ {| traddr := "10.0.0.1"; trsvcid := "4420" |} ] |}).
  reflexivity.
Defined.

Lemma beacon_listeners_fake_family_witness :
  address_family
    {| address_family := "fake"; address := "10.0.0.1"; svcid := "4420" |}
  = "fake".
Proof.
  apply (beacon_listeners_fake_family (sample_gw ∅) sample_subsystems_info true
           {| bsub_nqn := "nqn1";
              bsub_namespaces := [ {| bns_anagrpid := 1; bns_nonce := "n" |} ];
              bsub_listeners :=
                [ {| address_family := "fake"; address := "10.0.0.1";
                     svcid := "4420" |} ] |}).
  - cbn. left.
  - cbn. left.
Defined.

Lemma beacon_ignores_map_content_witness :
  send_beacon (sample_gw (sample_map (sample_state [0%Z; 1%Z])))
    sample_subsystems_info true
  = send_beacon (sample_gw (sample_map_with_peers (sample_state [1%Z])))
      sample_subsystems_info true.
Proof.
  apply beacon_ignores_map_content; [reflexivity..|].
  split; intros _; vm_compute; eauto.
Defined.

Lemma change_set_no_empty_batch_witness :
  states {| nqn := "nqn1";
            states := [ {| grp_id := 1; state := OPTIMIZED |};
                        {| grp_id := 2; state := INACCESSIBLE |} ] |} ≠ [] ∧
  ∃ sub, subsystems_of (Some (sample_state2 [0%Z; 1%Z] [])) !! "nqn1" = Some sub
         ∧ ana_state sub ≠ [].
Proof.
  apply (change_set_no_empty_batch 0 None (Some (sample_state2 [0%Z; 1%Z] []))
           {| ana_info_states :=
                [ {| nqn := "nqn1";
                     states := [ {| grp_id := 1; state := OPTIMIZED |};
                                 {| grp_id := 2; state := INACCESSIBLE |} ] |} ] |}).
  - vm_compute. reflexivity.
  - left.
Defined.

Lemma change_set_batches_ascending_witness :
  ∃ ai, gather_state_changes 0 (Some (sample_state2 [1%Z; 1%Z] [2%Z]))
          (Some (sample_state2 [0%Z; 1%Z] [0%Z])) = Some ai ∧
        NoDup (nqn <$> ana_info_states ai) ∧
        StronglySorted String.le (nqn <$> ana_info_states ai).
Proof.
  eexists. split; [vm_compute; reflexivity|].
  destruct (change_set_batches_ascending 0 (Some (sample_state2 [1%Z; 1%Z] [2%Z]))
              (Some (sample_state2 [0%Z; 1%Z] [0%Z])) _ ltac:(vm_compute; reflexivity))
    as (Hnodup & Hsorted & _).
  split; [exact Hnodup|exact Hsorted].
Defined.

Lemma change_set_group_ids_increasing_witness :
  StronglySorted lt
    (grp_id <$> [ {| grp_id := 1; state := OPTIMIZED |};
                  {| grp_id := 2; state := INACCESSIBLE |} ]).
Proof.
  apply (proj1 (change_set_group_ids_increasing 0 None
           (Some (sample_state2 [0%Z; 1%Z] []))
           {| ana_info_states :=
                [ {| nqn := "nqn1";
                     states := [ {| grp_id := 1; state := OPTIMIZED |};
                                 {| grp_id := 2; state := INACCESSIBLE |} ] |} ] |}
           {| nqn := "nqn1";
              states := [ {| grp_id := 1; state := OPTIMIZED |};
                          {| grp_id := 2; state := INACCESSIBLE |} ] |}
           ltac:(vm_compute; reflexivity) ltac:(left))).
Defined.

Lemma removals_are_silent_witness :
  handle_nvmeof_gw_map 0
    (sample_gw (sample_map (sample_state2 [0%Z; 1%Z; 0%Z] [5%Z])))
    (sample_map (sample_state [0%Z; 1%Z])) [false]
  = ([], Returned
           (commit (sample_gw (sample_map (sample_state2 [0%Z; 1%Z; 0%Z] [5%Z])))
                   (sample_map (sample_state [0%Z; 1%Z]))) [false]).
Proof.
  apply (proj2 (removals_are_silent 0
                  (sample_gw (sample_map (sample_state2 [0%Z; 1%Z; 0%Z] [5%Z])))
                  (sample_map (sample_state [0%Z; 1%Z]))
                  (sample_state2 [0%Z; 1%Z; 0%Z] [5%Z]) (sample_state [0%Z; 1%Z])
                  ltac:(vm_compute; reflexivity) ltac:(vm_compute; reflexivity)
                  ltac:(intros nq new_sub Hsub; cbn in Hsub;
                        apply lookup_singleton_Some in Hsub as [<- <-];
                        exists {| ana_state := [0%Z; 1%Z; 0%Z] |};
                        split; [vm_compute; reflexivity|by exists [0%Z]]))).
Defined.

Lemma new_subsystems_delivered_whole_witness :
  gather_state_changes 0 None (Some (sample_state2 [0%Z; 1%Z] []))
  = Some {| ana_info_states :=
              omap (full_batch 0)
                (in_order (subsystems (sample_state2 [0%Z; 1%Z] []))) |}.
Proof.
  apply (new_subsystems_delivered_whole 0 None (Some (sample_state2 [0%Z; 1%Z] []))).
  intros nq _. apply lookup_empty.
Defined.

Lemma raw_change_is_delivered_witness :
  gather_state_changes 0 (Some (sample_state [1%Z; 1%Z]))
    (Some (sample_state [1%Z; 2%Z]))
  = Some {| ana_info_states :=
              [ {| nqn := "nqn1";
                   states := [ {| grp_id := 2; state := INACCESSIBLE |} ] |} ] |}.
Proof.
  apply (proj2 (raw_change_is_delivered 0 (sample_state [1%Z; 1%Z])
                  (sample_state [1%Z; 2%Z]) "nqn1" {| ana_state := [1%Z; 1%Z] |}
                  1 1%Z 2%Z ltac:(reflexivity) ltac:(reflexivity)
                  ltac:(discriminate) ltac:(discriminate) ltac:(discriminate)
                  ltac:(vm_compute; reflexivity))).
Defined.

Lemma handler_calls_only_witness :
  call (set_group_id 3) false = usleep 1000 ∨
  (∃ ok new_state,
     get_gw_state ∅ ("pool-A", "group-1") "g1" = None ∧
     get_gw_state (sample_map (sample_state [0%Z; 1%Z])) ("pool-A", "group-1") "g1"
     = Some new_state ∧
     call (set_group_id 3) false = call (set_group_id (group_id new_state)) ok) ∨
  (∃ ok ai,
     gather_state_changes 0
       (get_gw_state ∅ ("pool-A", "group-1") "g1")
       (get_gw_state (sample_map (sample_state [0%Z; 1%Z]))
          ("pool-A", "group-1") "g1") = Some ai ∧
     ana_info_states ai ≠ [] ∧
     call (set_group_id 3) false = call (set_ana_state ai) ok).
Proof.
  apply (handler_calls_only 0 (sample_gw ∅)
           (sample_map (sample_state [0%Z; 1%Z])) [false; true; true]).
  vm_compute. left.
Defined.

Lemma known_gateway_no_group_call_witness :
  handle_nvmeof_gw_map 0 (sample_gw (sample_map (sample_state [0%Z; 1%Z])))
    (sample_map {| group_id := 9; availability := GW_AVAILABLE;
                   subsystems := subsystems (sample_state [0%Z; 1%Z]) |})
    [true]
  = ([], Returned
           (commit (sample_gw (sample_map (sample_state [0%Z; 1%Z])))
              (sample_map {| group_id := 9; availability := GW_AVAILABLE;
                             subsystems := subsystems (sample_state [0%Z; 1%Z]) |}))
           [true]).
Proof.
  apply (proj2 (known_gateway_no_group_call 0
                  (sample_gw (sample_map (sample_state [0%Z; 1%Z])))
                  (sample_map {| group_id := 9; availability := GW_AVAILABLE;
                                 subsystems := subsystems (sample_state [0%Z; 1%Z]) |})
                  (sample_state [0%Z; 1%Z]) ltac:(vm_compute; reflexivity))
           {| group_id := 9; availability := GW_AVAILABLE;
              subsystems := subsystems (sample_state [0%Z; 1%Z]) |}).
  - vm_compute. reflexivity.
  - reflexivity.
Defined.

Lemma beacon_after_join_witness :
  gw_availability
    (beacon (commit (sample_gw ∅) (sample_map (sample_state [0%Z; 1%Z])))
       sample_subsystems_info false)
  = GW_UNAVAILABLE.
Proof.
  apply (beacon_after_join 0 (sample_gw ∅) (sample_map (sample_state [0%Z; 1%Z]))
           (sample_state [0%Z; 1%Z]) [true; true]
           [ call (set_group_id 3) true;
             call (set_ana_state
               {| ana_info_states :=
                    [ {| nqn := "nqn1";
                         states := [ {| grp_id := 1; state := OPTIMIZED |};
                                     {| grp_id := 2; state := INACCESSIBLE |} ] |} ] |})
               true ]
           (commit (sample_gw ∅) (sample_map (sample_state [0%Z; 1%Z]))) []
           ltac:(vm_compute; reflexivity) ltac:(vm_compute; reflexivity)
           sample_subsystems_info false).
Defined.

Lemma dropped_gateway_starts_over_witness :
  gw_availability
    (beacon (commit (sample_gw (sample_map (sample_state [0%Z; 1%Z]))) ∅)
       sample_subsystems_info true)
  = GW_CREATED.
Proof.
  destruct (dropped_gateway_starts_over 0
              (sample_gw (sample_map (sample_state [0%Z; 1%Z]))) ∅ [] []
              (commit (sample_gw (sample_map (sample_state [0%Z; 1%Z]))) ∅) [])
    as [Hcreated _].
  - reflexivity.
  - vm_compute. reflexivity.
  - apply Hcreated.
Defined.

Lemma ms_dispatch2_never_handled_witness :
  ms_dispatch2 0 5 (sample_gw (sample_map (sample_state [0%Z])))
    {| get_type := 7; get_map := sample_map (sample_state [1%Z]) |} [true]
  = ([], Returned (sample_gw (sample_map (sample_state [0%Z])), false) [true]).
Proof.
  apply (proj1 (proj2 (ms_dispatch2_never_handled 0 5
                         (sample_gw (sample_map (sample_state [0%Z])))
                         {| get_type := 7;
                            get_map := sample_map (sample_state [1%Z]) |}))).
  discriminate.
Defined.

(** Start-up with an empty group, [monc.init] failing with -13. *)
Lemma init_return_code_witness :
  ((-13)%Z = 0%Z ↔ (0 ≤ 0)%Z ∧ (0 ≤ -13)%Z ∧ (0 ≤ 0)%Z).
Proof.
  refine (proj1 (proj2 (proj2 (proj2
    (proj2 (init_return_code 5
              {| name := "g1"; pool := "pool-A"; group := ""; map := ∅ |}
              sample_options 0 (-13) 0 sample_subsystems_info true)
       (-13)%Z _ _))))).
  vm_compute. reflexivity.
Defined.

Lemma init_failure_cleanup_witness :
  ∃ calls,
    init 5 (sample_gw ∅) sample_options 0 (-13) 0 sample_subsystems_info true
    = Exited (-13) calls ∧
    (∀ e, run e ∉ calls) ∧ (monc_shutdown ∈ calls ↔ (0 ≤ 0)%Z).
Proof.
  eexists. split; [vm_compute; reflexivity|].
  destruct (init_failure_cleanup 5 (sample_gw ∅) sample_options 0 (-13) 0
              sample_subsystems_info true (-13) _
              ltac:(vm_compute; reflexivity) ltac:(discriminate))
    as (Hrun & _ & _ & Hmonc).
  split; [exact Hrun|exact Hmonc].
Defined.

Lemma init_success_first_beacon_witness :
  ∃ calls,
    init 5 (sample_gw ∅) sample_options 0 0 0 sample_subsystems_info false
    = Exited 0 calls ∧
    (client_messenger_shutdown ∉ calls) ∧ (monc_shutdown ∉ calls).
Proof.
  eexists. split; [vm_compute; reflexivity|].
  destruct (init_success_first_beacon 5 (sample_gw ∅) sample_options 0 0 0
              sample_subsystems_info false _ ltac:(vm_compute; reflexivity))
    as (Hmsgr & Hmonc & _).
  split; [exact Hmsgr|exact Hmonc].
Defined.

Lemma delivery_retried_until_acknowledged_witness :
  handle_nvmeof_gw_map 0 (sample_gw (sample_map (sample_state [0%Z; 1%Z])))
    (sample_map (sample_state [1%Z; 1%Z])) [false; false; true]
  = (failed_attempts
       (set_ana_state
          {| ana_info_states :=
               [ {| nqn := "nqn1";
                    states := [ {| grp_id := 1; state := INACCESSIBLE |} ] |} ] |})
       2
     ++ [ call (set_ana_state
            {| ana_info_states :=
                 [ {| nqn := "nqn1";
                      states := [ {| grp_id := 1; state := INACCESSIBLE |} ] |} ] |})
            true ],
     Returned (commit (sample_gw (sample_map (sample_state [0%Z; 1%Z])))
                 (sample_map (sample_state [1%Z; 1%Z]))) []).
Proof.
  apply (proj2 (delivery_retried_until_acknowledged 0
                  (sample_gw (sample_map (sample_state [0%Z; 1%Z])))
                  (sample_map (sample_state [1%Z; 1%Z]))
                  (sample_state [0%Z; 1%Z])
                  {| ana_info_states :=
                       [ {| nqn := "nqn1";
                            states := [ {| grp_id := 1;
                                           state := INACCESSIBLE |} ] |} ] |}
                  ltac:(vm_compute; reflexivity) ltac:(vm_compute; reflexivity)
                  ltac:(discriminate)) 2 []).
Defined.

Lemma commit_only_after_delivery_witness :
  ∃ pre k,
    [ call (set_group_id 3) true;
      call (set_ana_state
        {| ana_info_states :=
             [ {| nqn := "nqn1";
                  states := [ {| grp_id := 1; state := OPTIMIZED |};
                              {| grp_id := 2; state := INACCESSIBLE |} ] |} ] |})
        true ]
    = pre ++ failed_attempts
               (set_ana_state
                  {| ana_info_states :=
                       [ {| nqn := "nqn1";
                            states := [ {| grp_id := 1; state := OPTIMIZED |};
                                        {| grp_id := 2;
                                           state := INACCESSIBLE |} ] |} ] |}) k
          ++ [ call (set_ana_state
                 {| ana_info_states :=
                      [ {| nqn := "nqn1";
                           states := [ {| grp_id := 1; state := OPTIMIZED |};
                                       {| grp_id := 2;
                                          state := INACCESSIBLE |} ] |} ] |})
                 true ] ∧
    (∀ ai' ok, call (set_ana_state ai') ok ∉ pre) ∧
    map (commit (sample_gw ∅) (sample_map (sample_state [0%Z; 1%Z])))
    = sample_map (sample_state [0%Z; 1%Z]).
Proof.
  apply (commit_only_after_delivery 0 (sample_gw ∅)
           (sample_map (sample_state [0%Z; 1%Z])) _ [true; true] _ _ []).
  - vm_compute. reflexivity.
  - discriminate.
  - vm_compute. reflexivity.
Defined.
